(** * Hacking-session sync worker: validation, admission and dispatch

    A shallow embedding of the worker's input validation module
    ([validation.ts]), of its entry point ([index.ts], the [fetch] handler)
    and of the per-room message dispatch, together with the properties the
    specification states about them.

    JavaScript values live in an explicit heap: objects and arrays are
    references, property reads and writes are operations of a small state
    monad, so that aliasing and in-place updates are visible. *)

From Stdlib Require Import ZArith QArith Qround Ascii String List Lia.
From stdpp Require Import base option list gmap strings pretty.

Open Scope Z_scope.

(** ** JavaScript strings

    A string is a sequence of UTF-16 code units; [length], [slice] and the
    regular expressions of the source all work on code units. *)

Definition jschar := N.
Definition jsstring := list jschar.

(** The code units of an ASCII literal of the source. *)
Definition lit (s : string) : jsstring :=
  map N_of_ascii (list_ascii_of_string s).

(** [String.prototype.slice(0, end)] for an integral [end]. *)
Definition slice0 (s : jsstring) (end_ : Z) : jsstring :=
  let len := Z.of_nat (length s) in
  let to := if end_ <? 0 then Z.max (len + end_) 0 else Z.min end_ len in
  take (Z.to_nat to) s.

(** ECMAScript WhiteSpace and LineTerminator code units, as stripped by
    [String.prototype.trim]. *)
Definition is_whitespace (c : jschar) : bool :=
  let n := Z.of_N c in
  ((9 <=? n) && (n <=? 13)) || (n =? 32) || (n =? 160) || (n =? 5760)
  || ((8192 <=? n) && (n <=? 8202)) || (n =? 8232) || (n =? 8233)
  || (n =? 8239) || (n =? 8287) || (n =? 12288) || (n =? 65279).

Fixpoint trimStart (s : jsstring) : jsstring :=
  match s with
  | c :: r => if is_whitespace c then trimStart r else s
  | [] => []
  end.

Definition trimEnd (s : jsstring) : jsstring :=
  reverse (trimStart (reverse s)).

Definition trim (s : jsstring) : jsstring := trimEnd (trimStart s).

(** [s.replace(/c/g, rep)] for a single character [c] and a replacement
    without [$] patterns. *)
Definition replaceAll (c : jschar) (rep : jsstring) (s : jsstring) : jsstring :=
  flat_map (fun d => if N.eqb d c then rep else [d]) s.

(** The character class [[\x00-\x08\x0B\x0C\x0E-\x1F\x7F]]. *)
Definition is_stripped_control (c : jschar) : bool :=
  let n := Z.of_N c in
  (n <=? 8) || (n =? 11) || (n =? 12) || ((14 <=? n) && (n <=? 31)) || (n =? 127).

(** The character class [[a-zA-Z0-9_-]]. *)
Definition is_id_char (c : jschar) : bool :=
  let n := Z.of_N c in
  ((97 <=? n) && (n <=? 122)) || ((65 <=? n) && (n <=? 90))
  || ((48 <=? n) && (n <=? 57)) || (n =? 95) || (n =? 45).

(** [/^[a-zA-Z0-9_-]+$/.test(s)]: no [m] flag, so [$] is the end of input. *)
Definition id_regex_test (s : jsstring) : bool :=
  match s with
  | [] => false
  | _ => forallb is_id_char s
  end.

(** ** JavaScript numbers

    A finite double denotes a rational; the validators only compare numbers,
    so a finite number is represented by the rational it denotes. *)

Inductive num : Type :=
  | Fin (q : Q)
  | NaN
  | PosInf
  | NegInf.

Definition num_of_Z (z : Z) : num := Fin (inject_Z z).

(** [a < b] on numbers. *)
Definition num_lt (a b : num) : bool :=
  match a, b with
  | NaN, _ | _, NaN => false
  | Fin p, Fin q => match Qcompare p q with Lt => true | _ => false end
  | Fin _, PosInf => true
  | Fin _, NegInf => false
  | PosInf, _ => false
  | NegInf, NegInf => false
  | NegInf, _ => true
  end.

Definition num_gt (a b : num) : bool := num_lt b a.

Definition isFinite (a : num) : bool :=
  match a with Fin _ => true | _ => false end.

(** ** Values and the heap *)

Abbreviation loc := nat.

Inductive val : Type :=
  | VUndef
  | VNull
  | VBool (b : bool)
  | VNum (n : num)
  | VStr (s : jsstring)
  | VRef (l : loc).

(** An object has named properties; an array has, besides, its elements. *)
Record obj : Type := Obj {
  o_elems : option (list val);
  o_props : gmap jsstring val;
}.

Abbreviation heap := (gmap loc obj).

(** [!v] is false exactly on the truthy values. *)
Definition truthy (v : val) : bool :=
  match v with
  | VUndef | VNull => false
  | VBool b => b
  | VNum (Fin q) => negb (Qeq_bool q 0)
  | VNum NaN => false
  | VNum _ => true
  | VStr [] => false
  | VStr _ => true
  | VRef _ => true
  end.

(** [typeof v === 'object'] *)
Definition typeof_object (v : val) : bool :=
  match v with
  | VNull | VRef _ => true
  | _ => false
  end.

(** The guard [!input || typeof input !== 'object'] of every validator. *)
Definition not_an_object (v : val) : bool :=
  negb (truthy v) || negb (typeof_object v).

(** Canonical array indices: decimal digits without a leading zero. *)
Definition digit_of (c : jschar) : option N :=
  if ((48 <=? c) && (c <=? 57))%N then Some (c - 48)%N else None.

Fixpoint digits_value (acc : N) (s : jsstring) : option N :=
  match s with
  | [] => Some acc
  | c :: r =>
      match digit_of c with
      | Some d => digits_value (10 * acc + d)%N r
      | None => None
      end
  end.

Definition array_index (k : jsstring) : option nat :=
  match k with
  | [] => None
  | [48%N] => Some 0%nat
  | 48%N :: _ => None
  | _ =>
      match digits_value 0 k with
      | Some n => if (n <? 4294967295)%N then Some (N.to_nat n) else None
      | None => None
      end
  end.

(** Reading property [k] of the object [o]. *)
Definition obj_get (o : obj) (k : jsstring) : val :=
  match o_elems o with
  | Some elems =>
      if decide (k = lit "length") then VNum (num_of_Z (Z.of_nat (length elems)))
      else match array_index k with
           | Some i => default VUndef (elems !! i)
           | None => default VUndef (o_props o !! k)
           end
  | None => default VUndef (o_props o !! k)
  end.

(** Writing a named (non-index) property of [o]. *)
Definition obj_set (o : obj) (k : jsstring) (x : val) : obj :=
  Obj (o_elems o) (<[k := x]> (o_props o)).

(** ** The state monad of heap operations *)

Definition M (A : Type) : Type := heap -> A * heap.

#[global] Instance M_ret : MRet M := fun A a h => (a, h).

#[global] Instance M_bind : MBind M :=
  fun A B f m h => f (m h).1 (m h).2.

(** [v.k] *)
Definition getProp (v : val) (k : jsstring) : M val :=
  fun h =>
    match v with
    | VRef l => (match h !! l with Some o => obj_get o k | None => VUndef end, h)
    | _ => (VUndef, h)
    end.

(** [v.k = x], for the named properties the source assigns. *)
Definition setProp (v : val) (k : jsstring) (x : val) : M unit :=
  fun h =>
    match v with
    | VRef l => (tt, match h !! l with
                     | Some o => <[l := obj_set o k x]> h
                     | None => h
                     end)
    | _ => (tt, h)
    end.

(** [Array.isArray(v)], with the elements when it is one. *)
Definition arrayElems (v : val) : M (option (list val)) :=
  fun h =>
    match v with
    | VRef l => (match h !! l with Some o => o_elems o | None => None end, h)
    | _ => (None, h)
    end.

(** ** Constants *)

Module LIMITS.
Definition MAX_STRING_LENGTH : Z := 500.
Definition MAX_NAME_LENGTH : Z := 100.
Definition MAX_DESCRIPTION_LENGTH : Z := 1000.
Definition MAX_ID_LENGTH : Z := 50.
Definition MAX_ACCESS_POINTS : Z := 20.
Definition MAX_CONNECTIONS_PER_NODE : Z := 10.
Definition MIN_LEVEL : Z := -1.
Definition MAX_LEVEL : Z := 25.
Definition MIN_INTENSITY : Z := 0.
Definition MAX_INTENSITY : Z := 1.
Definition MAX_POSITION_VALUE : Z := 10000.
End LIMITS.

Inductive ComputerType : Type := tech | magic | hybrid.
Inductive AccessPointType : Type := physical | remote | magical.
Inductive NodeState : Type := locked | active | breached | alarmed.

(** [VALID_COMPUTER_TYPES.has(v)]: the member [v] is, if any. *)
Definition VALID_COMPUTER_TYPES_has (v : val) : option ComputerType :=
  match v with
  | VStr s =>
      if decide (s = lit "tech") then Some tech
      else if decide (s = lit "magic") then Some magic
      else if decide (s = lit "hybrid") then Some hybrid
      else None
  | _ => None
  end.

Definition VALID_ACCESS_POINT_TYPES_has (v : val) : option AccessPointType :=
  match v with
  | VStr s =>
      if decide (s = lit "physical") then Some physical
      else if decide (s = lit "remote") then Some remote
      else if decide (s = lit "magical") then Some magical
      else None
  | _ => None
  end.

Definition VALID_NODE_STATES_has (v : val) : option NodeState :=
  match v with
  | VStr s =>
      if decide (s = lit "locked") then Some locked
      else if decide (s = lit "active") then Some active
      else if decide (s = lit "breached") then Some breached
      else if decide (s = lit "alarmed") then Some alarmed
      else None
  | _ => None
  end.

Inductive ValidationResult (T : Type) : Type :=
  | Valid (value : T)
  | Invalid (error : string).
Arguments Valid {T} value.
Arguments Invalid {T} error.

(** ** Sanitizers *)

Definition sanitizeString (input : val) (maxLength : Z) : option jsstring :=
  match input with
  | VStr s =>
      let cleaned := filter (fun c => is_stripped_control c = false) s in
      let cleaned :=
        replaceAll 39%N (lit "&#x27;")
          (replaceAll 34%N (lit "&quot;")
            (replaceAll 62%N (lit "&gt;")
              (replaceAll 60%N (lit "&lt;")
                (replaceAll 38%N (lit "&amp;") cleaned)))) in
      let cleaned := slice0 (trim cleaned) maxLength in
      match cleaned with
      | [] => None
      | _ => Some cleaned
      end
  | _ => None
  end.

Definition sanitizeId (input : val) : option jsstring :=
  match input with
  | VStr s =>
      let trimmed := slice0 (trim s) LIMITS.MAX_ID_LENGTH in
      if negb (id_regex_test trimmed) then None
      else match trimmed with
           | [] => None
           | _ => Some trimmed
           end
  | _ => None
  end.

Definition validateNumber (input : val) (min max : num) : option num :=
  match input with
  | VNum n =>
      if negb (isFinite n) then None
      else if num_lt n min || num_gt n max then None
      else Some n
  | _ => None
  end.

(** ** Payload validators *)

Record Position : Type := mkPosition {
  pos_x : num;
  pos_y : num;
}.

Record AccessPoint : Type := mkAccessPoint {
  ap_id : jsstring;
  ap_name : jsstring;
  ap_type : AccessPointType;
  ap_state : NodeState;
  ap_position : Position;
  ap_connectedTo : list jsstring;
}.

Record Computer : Type := mkComputer {
  c_id : jsstring;
  c_name : jsstring;
  c_level : num;
  c_type : ComputerType;
  c_description : option jsstring;
  c_accessPoints : list AccessPoint;
}.

Definition validatePosition (input : val) : M (option Position) :=
  if not_an_object input then mret None
  else
    px ← getProp input (lit "x");
    py ← getProp input (lit "y");
    let x := validateNumber px (num_of_Z (- LIMITS.MAX_POSITION_VALUE))
                               (num_of_Z LIMITS.MAX_POSITION_VALUE) in
    let y := validateNumber py (num_of_Z (- LIMITS.MAX_POSITION_VALUE))
                               (num_of_Z LIMITS.MAX_POSITION_VALUE) in
    match x, y with
    | Some x, Some y => mret (Some (mkPosition x y))
    | _, _ => mret None
    end.

(** The [for (const conn of ap.connectedTo)] loop, over the elements. *)
Fixpoint sanitizeConnections (conns : list val) (connectedTo : list jsstring)
  : option (list jsstring) :=
  match conns with
  | [] => Some connectedTo
  | conn :: rest =>
      match sanitizeId conn with
      | None => None
      | Some sanitized => sanitizeConnections rest (connectedTo ++ [sanitized])
      end
  end.

Definition validateAccessPoint (input : val) : M (option AccessPoint) :=
  if not_an_object input then mret None
  else
    vid ← getProp input (lit "id");
    vname ← getProp input (lit "name");
    match sanitizeId vid, sanitizeString vname LIMITS.MAX_NAME_LENGTH with
    | Some id, Some name =>
        vtype ← getProp input (lit "type");
        match VALID_ACCESS_POINT_TYPES_has vtype with
        | None => mret None
        | Some type =>
            vstate ← getProp input (lit "state");
            match VALID_NODE_STATES_has vstate with
            | None => mret None
            | Some state =>
                vpos ← getProp input (lit "position");
                position ← validatePosition vpos;
                match position with
                | None => mret None
                | Some position =>
                    vconn ← getProp input (lit "connectedTo");
                    conns ← arrayElems vconn;
                    match conns with
                    | None => mret None
                    | Some conns =>
                        if Z.of_nat (length conns) >? LIMITS.MAX_CONNECTIONS_PER_NODE
                        then mret None
                        else
                          match sanitizeConnections conns [] with
                          | None => mret None
                          | Some connectedTo =>
                              mret (Some (mkAccessPoint id name type state
                                                        position connectedTo))
                          end
                    end
                end
            end
        end
    | _, _ => mret None
    end.

(** The indexed loop of [validateComputer] over the access points; [i] is
    the index of the head of [elems], [accessPoints] what was pushed so far.
    No statement of the loop body writes to the heap, so the elements read at
    [comp.accessPoints[i]] are those the array had on entry. *)
Fixpoint validateAccessPoints (i : nat) (elems : list val)
    (accessPoints : list AccessPoint) : M (ValidationResult (list AccessPoint)) :=
  match elems with
  | [] => mret (Valid accessPoints)
  | e :: rest =>
      validated ← validateAccessPoint e;
      match validated with
      | None => mret (Invalid ("Invalid access point at index " +:+ pretty i))
      | Some ap => validateAccessPoints (S i) rest (accessPoints ++ [ap])
      end
  end.

Definition validateComputer (input : val) : M (ValidationResult Computer) :=
  if not_an_object input then mret (Invalid "Invalid computer object")
  else
    vid ← getProp input (lit "id");
    match sanitizeId vid with
    | None => mret (Invalid "Invalid or missing computer ID")
    | Some id =>
        vname ← getProp input (lit "name");
        match sanitizeString vname LIMITS.MAX_NAME_LENGTH with
        | None => mret (Invalid "Invalid or missing computer name")
        | Some name =>
            vlevel ← getProp input (lit "level");
            match validateNumber vlevel (num_of_Z LIMITS.MIN_LEVEL)
                                        (num_of_Z LIMITS.MAX_LEVEL) with
            | None =>
                mret (Invalid ("Level must be between " +:+ pretty LIMITS.MIN_LEVEL
                               +:+ " and " +:+ pretty LIMITS.MAX_LEVEL))
            | Some level =>
                vtype ← getProp input (lit "type");
                match VALID_COMPUTER_TYPES_has vtype with
                | None => mret (Invalid "Invalid computer type")
                | Some type =>
                    vdesc ← getProp input (lit "description");
                    let description :=
                      match vdesc with
                      | VUndef | VNull => None
                      | _ => sanitizeString vdesc LIMITS.MAX_DESCRIPTION_LENGTH
                      end in
                    vaps ← getProp input (lit "accessPoints");
                    elems ← arrayElems vaps;
                    match elems with
                    | None => mret (Invalid "accessPoints must be an array")
                    | Some elems =>
                        if Z.of_nat (length elems) >? LIMITS.MAX_ACCESS_POINTS
                        then mret (Invalid ("Too many access points (max "
                                            +:+ pretty LIMITS.MAX_ACCESS_POINTS +:+ ")"))
                        else
                          r ← validateAccessPoints 0 elems [];
                          match r with
                          | Invalid e => mret (Invalid e)
                          | Valid accessPoints =>
                              mret (Valid (mkComputer id name level type
                                                      description accessPoints))
                          end
                    end
                end
            end
        end
    end.

Definition validateNodeStatePayload (input : val)
  : M (ValidationResult (jsstring * NodeState)) :=
  if not_an_object input then mret (Invalid "Invalid node-state payload")
  else
    vnode ← getProp input (lit "nodeId");
    match sanitizeId vnode with
    | None => mret (Invalid "Invalid node ID")
    | Some nodeId =>
        vstate ← getProp input (lit "state");
        match VALID_NODE_STATES_has vstate with
        | None => mret (Invalid "Invalid node state")
        | Some state => mret (Valid (nodeId, state))
        end
    end.

(** The sanitized [nodeId] is [None] for [null] (unfocus). *)
Definition validateFocusPayload (input : val)
  : M (ValidationResult (option jsstring)) :=
  if not_an_object input then mret (Invalid "Invalid focus payload")
  else
    vnode ← getProp input (lit "nodeId");
    match vnode with
    | VNull => mret (Valid None)
    | _ =>
        match sanitizeId vnode with
        | None => mret (Invalid "Invalid node ID")
        | Some nodeId => mret (Valid (Some nodeId))
        end
    end.

Definition validateIntensityPayload (input : val) : M (ValidationResult num) :=
  if not_an_object input then mret (Invalid "Invalid intensity payload")
  else
    v ← getProp input (lit "value");
    match validateNumber v (num_of_Z LIMITS.MIN_INTENSITY)
                           (num_of_Z LIMITS.MAX_INTENSITY) with
    | None =>
        mret (Invalid ("Intensity must be between " +:+ pretty LIMITS.MIN_INTENSITY
                       +:+ " and " +:+ pretty LIMITS.MAX_INTENSITY))
    | Some value => mret (Valid value)
    end.

(** The literal of the [Set] in [validateMessageType], in source order. *)
Definition validTypes : list jsstring :=
  [ lit "effect"; lit "node-state"; lit "focus"; lit "intensity";
    lit "computer"; lit "clear-effects"; lit "ping"; lit "init"; lit "pong" ].

Definition validateMessageType (input : val) : option jsstring :=
  match input with
  | VStr s => if bool_decide (s ∈ validTypes) then Some s else None
  | _ => None
  end.

(** The value returned on success is the payload object itself. *)
Definition validateEffectPayload (input : val) : M (ValidationResult val) :=
  if not_an_object input then mret (Invalid "Invalid effect payload")
  else
    let payload := input in
    vnode ← getProp payload (lit "nodeId");
    r1 ← match vnode with
         | VUndef => mret None
         | _ =>
             match sanitizeId vnode with
             | None => mret (Some "Invalid effect nodeId")
             | Some nodeId =>
                 _ ← setProp payload (lit "nodeId") (VStr nodeId); mret None
             end
         end;
    match r1 with
    | Some e => mret (Invalid e)
    | None =>
        vtype ← getProp payload (lit "effectType");
        r2 ← match vtype with
             | VUndef => mret None
             | _ =>
                 match sanitizeString vtype 50 with
                 | None => mret (Some "Invalid effect type")
                 | Some effectType =>
                     _ ← setProp payload (lit "effectType") (VStr effectType);
                     mret None
                 end
             end;
        match r2 with
        | Some e => mret (Invalid e)
        | None => mret (Valid payload)
        end
    end.

(** ** The worker entry point ([index.ts]) *)

Module Worker.

(** [origin], [pathname] and [searchParams] are those of
    [new URL(request.url)]; the URL of a request is absolute, of scheme
    http or https, so that [origin] is scheme, host and port without a
    final slash. *)
Record Request : Type := mkRequest {
  method : jsstring;
  origin : jsstring;
  pathname : jsstring;
  searchParams : list (jsstring * jsstring);
  headers : list (jsstring * jsstring);
}.

Record Env : Type := mkEnv {
  ALLOWED_ORIGINS : option jsstring;
  GM_SECRET : option jsstring;
}.

Inductive Body : Type :=
  | NoBody
  | Text (s : jsstring)
  | Json (fields : list (jsstring * val)).

Record Response : Type := mkResponse {
  status : Z;
  body : Body;
  resp_headers : list (jsstring * jsstring);
}.

Inductive Role : Type := gm | player.

Definition role_name (r : Role) : jsstring :=
  match r with gm => lit "gm" | player => lit "player" end.

(** What [fetch] returns: a response of the worker's own, or the response of
    [stub.fetch(doRequest)] on the Durable Object named [sessionId], the only
    place where the coordinator is contacted. *)
Inductive Outcome : Type :=
  | Respond (r : Response)
  | StubFetch (sessionId : jsstring) (doRequest : Request).

(** [a || b] on [string | null]. *)
Definition or_else (a b : option jsstring) : option jsstring :=
  match a with
  | Some (_ :: _) => a
  | _ => b
  end.

(** [!!s] on [string | undefined]. *)
Definition configured (s : option jsstring) : bool :=
  match s with
  | Some (_ :: _) => true
  | _ => false
  end.

(** [URLSearchParams.get]: the first value of that name. *)
Fixpoint searchParams_get (ps : list (jsstring * jsstring)) (name : jsstring)
  : option jsstring :=
  match ps with
  | [] => None
  | (k, v) :: r => if decide (k = name) then Some v else searchParams_get r name
  end.

(** [URLSearchParams.set]: the first pair of that name takes the value, the
    others of that name are removed; without one the pair is appended. *)
Fixpoint searchParams_set (ps : list (jsstring * jsstring)) (name value : jsstring)
  : list (jsstring * jsstring) :=
  match ps with
  | [] => [(name, value)]
  | (k, v) :: r =>
      if decide (k = name)
      then (k, value) :: filter (fun p => p.1 ≠ name) r
      else (k, v) :: searchParams_set r name value
  end.

Definition lower (c : jschar) : jschar :=
  if ((65 <=? c) && (c <=? 90))%N then (c + 32)%N else c.

Fixpoint join (sep : jsstring) (l : list jsstring) : jsstring :=
  match l with
  | [] => []
  | [x] => x
  | x :: r => x ++ sep ++ join sep r
  end.

(** [Headers.get]: names compare without case, several values are joined. *)
Definition headers_get (hs : list (jsstring * jsstring)) (name : jsstring)
  : option jsstring :=
  match filter (fun p => map lower p.1 = map lower name) hs with
  | [] => None
  | l => Some (join (lit ", ") (map snd l))
  end.

(** [s.split(c)] for a one-character separator. *)
Fixpoint split (c : jschar) (s : jsstring) : list jsstring :=
  match s with
  | [] => [[]]
  | d :: r =>
      if N.eqb d c then [] :: split c r
      else match split c r with
           | x :: xs => (d :: x) :: xs
           | [] => [[d]]
           end
  end.

Definition cors_methods : jsstring * jsstring :=
  (lit "Access-Control-Allow-Methods", lit "GET, POST, OPTIONS").

Definition cors_allow_headers : jsstring * jsstring :=
  (lit "Access-Control-Allow-Headers",
   lit "Content-Type, Upgrade, Connection, X-GM-Secret").

Definition getCorsHeaders (request : Request) (env : Env)
  : list (jsstring * jsstring) :=
  let origin :=
    default (lit "*") (or_else (headers_get (headers request) (lit "Origin"))
                               (Some (lit "*"))) in
  if negb (configured (ALLOWED_ORIGINS env)) then
    [ (lit "Access-Control-Allow-Origin", lit "*"); cors_methods;
      cors_allow_headers ]
  else
    let allowedOrigins :=
      map trim (split 44%N (default [] (ALLOWED_ORIGINS env))) in
    let isAllowed := bool_decide (origin ∈ allowedOrigins) in
    [ (lit "Access-Control-Allow-Origin",
       if isAllowed then origin else default [] (head allowedOrigins));
      cors_methods; cors_allow_headers; (lit "Vary", lit "Origin") ].

Definition is_session_char (c : jschar) : bool :=
  let n := Z.of_N c in
  ((97 <=? n) && (n <=? 122)) || ((65 <=? n) && (n <=? 90))
  || ((48 <=? n) && (n <=? 57)) || (n =? 45).

Fixpoint strip_prefix (p s : jsstring) : option jsstring :=
  match p, s with
  | [], _ => Some s
  | a :: p', b :: s' => if N.eqb a b then strip_prefix p' s' else None
  | _ :: _, [] => None
  end.

Fixpoint take_while (f : jschar -> bool) (s : jsstring) : jsstring :=
  match s with
  | c :: r => if f c then c :: take_while f r else []
  | [] => []
  end.

(** [url.pathname.match(/^\/ws\/([a-zA-Z0-9-]+)/)]: the first group. *)
Definition wsMatch (path : jsstring) : option jsstring :=
  match strip_prefix (lit "/ws/") path with
  | Some rest =>
      match take_while is_session_char rest with
      | [] => None
      | sessionId => Some sessionId
      end
  | None => None
  end.

(** The secret the request supplies:
    [request.headers.get('X-GM-Secret') || url.searchParams.get('secret')]. *)
Definition providedSecret (request : Request) : option jsstring :=
  or_else (headers_get (headers request) (lit "X-GM-Secret"))
          (searchParams_get (searchParams request) (lit "secret")).

Definition unauthorized (corsHeaders : list (jsstring * jsstring)) : Response :=
  mkResponse 401
    (Json [ (lit "error", VStr (lit "UNAUTHORIZED"));
            (lit "message", VStr (lit "Invalid or missing GM secret")) ])
    ((lit "Content-Type", lit "application/json") :: corsHeaders).

(** [Response.redirect(url.origin, 302)]: the argument is parsed as a URL
    and the [Location] header holds its serialisation, which for an origin
    of scheme http or https is the origin followed by the path [/]. *)
Definition redirect (url : jsstring) (status : Z) : Response :=
  mkResponse status NoBody [ (lit "Location", url ++ lit "/") ].

(** [now] is [new Date().toISOString()] at the time of the call. *)
Definition fetch (now : jsstring) (request : Request) (env : Env) : Outcome :=
  let corsHeaders := getCorsHeaders request env in
  if decide (method request = lit "OPTIONS") then
    Respond (mkResponse 200 NoBody corsHeaders)
  else
    match wsMatch (pathname request) with
    | Some sessionId =>
        let requestedRole := searchParams_get (searchParams request) (lit "role") in
        let forward (role : Role) :=
          StubFetch sessionId
            (mkRequest (method request) (origin request) (pathname request)
               (searchParams_set (searchParams request) (lit "role") (role_name role))
               (headers request)) in
        if decide (requestedRole = Some (lit "gm")) then
          if configured (GM_SECRET env)
             && negb (bool_decide (providedSecret request = GM_SECRET env))
          then Respond (unauthorized corsHeaders)
          else forward gm
        else forward player
    | None =>
        if bool_decide (pathname request = lit "/health")
           || bool_decide (pathname request = lit "/api/health")
        then
          Respond (mkResponse 200
            (Json [ (lit "status", VStr (lit "ok"));
                    (lit "service", VStr (lit "hacking-sync"));
                    (lit "timestamp", VStr now);
                    (lit "gmAuthEnabled", VBool (configured (GM_SECRET env)));
                    (lit "corsRestricted", VBool (configured (ALLOWED_ORIGINS env))) ])
            ((lit "Content-Type", lit "application/json") :: corsHeaders))
        else if bool_decide (pathname request = lit "/")
                || bool_decide (pathname request = [])
        then Respond (redirect (origin request) 302)
        else Respond (mkResponse 404 (Text (lit "Not Found")) corsHeaders)
    end.

End Worker.

(** ** The room coordinator

    [HackingSession.ts], the Durable Object behind [stub.fetch], is not part
    of the sources at hand; the definitions of this module follow the
    specification's description of it (sections 3, 4.2, 4.3 and 4.5) and
    call the validators of [validation.ts] above. *)

Module HackingSession.

(** Modelled from the spec: the role a connection was admitted with, [gm]
    being the controller and every other value the observer. *)
Inductive Role : Type := controller | observer.

(** Modelled from the spec: the role annotation of the forwarded request,
    read by the coordinator. *)
Definition role_of_param (r : option jsstring) : Role :=
  if decide (r = Some (lit "gm")) then controller else observer.

(** Modelled from the spec: RoomState, the authoritative payload of a room
    (optional computer, nullable focused node, ambient intensity). *)
Record RoomState : Type := mkRoomState {
  computer : option Computer;
  focusedNodeId : option jsstring;
  ambientIntensity : num;
}.

(** Modelled from the spec: the opaque identifier of a connection. *)
Definition connId := nat.

(** Modelled from the spec: a room, with its state, the registry of open
    connections and the time at which the pending reaper fires, if any. *)
Record Room : Type := mkRoom {
  state : RoomState;
  registry : gmap connId Role;
  reaper : option nat;
}.

(** Modelled from the spec: the validated messages of the wire schema. *)
Inductive Message : Type :=
  | MInit (s : RoomState)
  | MComputer (c : Computer)
  | MNodeState (nodeId : jsstring) (st : NodeState)
  | MFocus (nodeId : option jsstring)
  | MIntensity (value : num)
  | MEffect (payload : val)
  | MClearEffects (payload : val)
  | MPong.

(** Modelled from the spec: the idle window of the reaper, in minutes. *)
Definition IDLE_WINDOW : nat := 15.

(** Modelled from the spec: the set-time invariant of [focusedNodeId]
    (section 3), a look-up of the node among the access points the computer
    of the room has at that time; a room without computer has none, and
    unfocusing names no node. *)
Definition references (s : RoomState) (nodeId : option jsstring) : bool :=
  match nodeId with
  | None => true
  | Some n =>
      match computer s with
      | Some c => bool_decide (n ∈ map ap_id (c_accessPoints c))
      | None => false
      end
  end.

(** Modelled from the spec: step 4 of the dispatch in the room state [s],
    the validator of each type, followed for [focus] by the look-up of the
    node in [s]; an inbound [init] has no validator and is dropped. *)
Definition validate (s : RoomState) (type : jsstring) (payload : val)
  : M (option Message) :=
  if decide (type = lit "computer") then
    r ← validateComputer payload;
    mret (match r with Valid c => Some (MComputer c) | Invalid _ => None end)
  else if decide (type = lit "node-state") then
    r ← validateNodeStatePayload payload;
    mret (match r with Valid p => Some (MNodeState p.1 p.2) | Invalid _ => None end)
  else if decide (type = lit "focus") then
    r ← validateFocusPayload payload;
    mret (match r with
          | Valid n => if references s n then Some (MFocus n) else None
          | Invalid _ => None
          end)
  else if decide (type = lit "intensity") then
    r ← validateIntensityPayload payload;
    mret (match r with Valid v => Some (MIntensity v) | Invalid _ => None end)
  else if decide (type = lit "effect") then
    r ← validateEffectPayload payload;
    mret (match r with Valid p => Some (MEffect p) | Invalid _ => None end)
  else if decide (type = lit "clear-effects") then
    r ← validateEffectPayload payload;
    mret (match r with Valid p => Some (MClearEffects p) | Invalid _ => None end)
  else mret None.

(** Modelled from the spec: a [node-state] message sets the state of the
    access point of that id. *)
Definition setNodeState (nodeId : jsstring) (st : NodeState) (ap : AccessPoint)
  : AccessPoint :=
  if decide (ap_id ap = nodeId)
  then mkAccessPoint (ap_id ap) (ap_name ap) (ap_type ap) st
                     (ap_position ap) (ap_connectedTo ap)
  else ap.

(** Modelled from the spec: step 5 of the dispatch, a persistable message
    that passed [validate] mutates RoomState, a transient one does not. *)
Definition apply (m : Message) (s : RoomState) : RoomState :=
  match m with
  | MComputer c => mkRoomState (Some c) (focusedNodeId s) (ambientIntensity s)
  | MNodeState nodeId st =>
      mkRoomState
        (option_map (fun c =>
           mkComputer (c_id c) (c_name c) (c_level c) (c_type c) (c_description c)
                      (map (setNodeState nodeId st) (c_accessPoints c)))
           (computer s))
        (focusedNodeId s) (ambientIntensity s)
  | MFocus nodeId => mkRoomState (computer s) nodeId (ambientIntensity s)
  | MIntensity value => mkRoomState (computer s) (focusedNodeId s) value
  | MInit _ | MEffect _ | MClearEffects _ | MPong => s
  end.

(** Modelled from the spec: the broadcast engine, one frame for every open
    connection but the sender. *)
Definition broadcast (sender : connId) (m : Message) (reg : gmap connId Role)
  : list (connId * Message) :=
  map (fun c => (c, m)) (filter (fun c => c ≠ sender) (map fst (map_to_list reg))).

(** Modelled from the spec: the dispatch of one inbound message of the
    connection [sender] at time [now] (section 4.3, steps 1 to 6): the new
    room and the frames sent. *)
Definition handleMessage (now : nat) (sender : connId) (type payload : val)
    (room : Room) : M (Room * list (connId * Message)) :=
  match registry room !! sender with
  | None => mret (room, [])
  | Some role =>
      match validateMessageType type with
      | None => mret (room, [])
      | Some t =>
          if decide (t = lit "ping") then mret (room, [(sender, MPong)])
          else if decide (t = lit "pong") then mret (room, [])
          else
            match role with
            | observer => mret (room, [])
            | controller =>
                validated ← validate (state room) t payload;
                match validated with
                | None => mret (room, [])
                | Some m =>
                    mret (mkRoom (apply m (state room)) (registry room)
                                 (Some (now + IDLE_WINDOW)%nat),
                          broadcast sender m (registry room))
                end
            end
      end
  end.

(** Modelled from the spec: a connection entering Open is registered with
    its role and sent the [init] snapshot; a pending reaper is rescheduled. *)
Definition openConnection (now : nat) (c : connId) (role : Role) (room : Room)
  : Room * list (connId * Message) :=
  (mkRoom (state room) (<[c := role]> (registry room))
          (option_map (fun _ => (now + IDLE_WINDOW)%nat) (reaper room)),
   [(c, MInit (state room))]).

(** Modelled from the spec: a closed connection is deregistered; the last
    one to close starts the reaper, the state stays in memory. *)
Definition closeConnection (now : nat) (c : connId) (room : Room) : Room :=
  let reg := delete c (registry room) in
  mkRoom (state room) reg
         (if decide (reg = ∅) then Some (now + IDLE_WINDOW)%nat else reaper room).

End HackingSession.

(** ** Properties stated by the specification *)

(** [s] matches [^[a-zA-Z0-9_-]+$]. *)
Definition id_char (c : jschar) : Prop :=
  (97 <= c <= 122 \/ 65 <= c <= 90 \/ 48 <= c <= 57 \/ c = 95 \/ c = 45)%N.

Definition matches_id_pattern (s : jsstring) : Prop :=
  s ≠ [] /\ Forall id_char s.

(** The ASCII control characters: C0 and DEL. *)
Definition ascii_control (c : jschar) : Prop := (c < 32 \/ c = 127)%N.

(** The raw less-than, greater-than, double-quote and single-quote
    characters. *)
Definition html_special (c : jschar) : Prop :=
  (c = 60 \/ c = 62 \/ c = 34 \/ c = 39)%N.

Definition tab : jschar := 9%N.
Definition newline : jschar := 10%N.
Definition carriage_return : jschar := 13%N.

(** No raw markup character, and no ASCII control character but those of
    [kept]. *)
Definition clean (kept : list jschar) (s : jsstring) : Prop :=
  Forall (fun c => ~ html_special c /\ (ascii_control c -> c ∈ kept)) s.

(** The nine message types, as the data model lists them. *)
Definition recognized_types : list jsstring :=
  [ lit "init"; lit "computer"; lit "node-state"; lit "focus"; lit "intensity";
    lit "effect"; lit "clear-effects"; lit "ping"; lit "pong" ].

(** The payload [input] is an object of the heap [h] whose [value] field is
    the finite number [q] of the closed interval from 0 to 1. *)
Definition intensity_object (h : heap) (input : val) (q : Q) : Prop :=
  exists l o, input = VRef l /\ h !! l = Some o
              /\ obj_get o (lit "value") = VNum (Fin q) /\ (0 <= q <= 1)%Q.

(** A heap operation that leaves the heap as it found it. *)
Definition read_only {A : Type} (m : M A) : Prop := forall h, (m h).2 = h.

(** A heap operation whose final heap is related by [R] to the initial one. *)
Definition respects {A : Type} (R : relation heap) (m : M A) : Prop :=
  forall h, R h (m h).2.

(** A heap operation whose result satisfies [P]. *)
Definition returns {A : Type} (P : A -> Prop) (m : M A) : Prop :=
  forall h, P (m h).1.

(** What may differ between [h] and [h'] after sanitizing the effect payload
    at [l0] in place: the [nodeId] and [effectType] properties of that
    object, and nothing else. *)
Definition effect_frame (l0 : loc) (h h' : heap) : Prop :=
  (forall l, l ≠ l0 -> h' !! l = h !! l)
  /\ (h !! l0 = None -> h' !! l0 = None)
  /\ (forall o, h !! l0 = Some o ->
        exists o', h' !! l0 = Some o' /\ o_elems o' = o_elems o
          /\ forall k, k ≠ lit "nodeId" -> k ≠ lit "effectType" ->
                       o_props o' !! k = o_props o !! k).

(** The ids of the access points of the computer of a room state. *)
Definition accessPointIds (s : HackingSession.RoomState) : list jsstring :=
  match HackingSession.computer s with
  | Some c => map ap_id (c_accessPoints c)
  | None => []
  end.

(** The room [room] after a message of [sender] at time [now] has set its
    focused node to [nodeId]: the rest of the state and the registry are
    as before and the reaper is rescheduled. *)
Definition focus_set (now : nat) (nodeId : option jsstring)
    (room : HackingSession.Room) : HackingSession.Room :=
  HackingSession.mkRoom
    (HackingSession.mkRoomState
       (HackingSession.computer (HackingSession.state room)) nodeId
       (HackingSession.ambientIntensity (HackingSession.state room)))
    (HackingSession.registry room)
    (Some (now + HackingSession.IDLE_WINDOW)%nat).

(** A request routed to the room [sessionId]; the CORS preflight is
    answered before any routing. *)
Definition admission_request (request : Worker.Request) (sessionId : jsstring)
  : Prop :=
  Worker.method request ≠ lit "OPTIONS"
  /\ Worker.wsMatch (Worker.pathname request) = Some sessionId.

(** The request asks for the role [gm]. *)
Definition requests_gm (request : Worker.Request) : Prop :=
  Worker.searchParams_get (Worker.searchParams request) (lit "role")
  = Some (lit "gm").

(** The secret check, when a secret is configured, passes. *)
Definition secret_check_passes (request : Worker.Request) (env : Worker.Env)
  : Prop :=
  Worker.configured (Worker.GM_SECRET env) = true ->
  Worker.providedSecret request = Worker.GM_SECRET env.

(** The values of all the [role] parameters of a forwarded request. *)
Definition role_annotation (doRequest : Worker.Request) : list jsstring :=
  map snd (filter (fun p => p.1 = lit "role") (Worker.searchParams doRequest)).

(** Building heaps of examples: an object and an array literal. *)
Definition object (l : list (string * val)) : obj :=
  Obj None (list_to_map (map (fun p => (lit p.1, p.2)) l)).

Definition array (l : list val) : obj := Obj (Some l) ∅.

(** The payload [input] is an object of the heap [h] whose [accessPoints]
    field is an array of elements [aps], each a valid access point, and
    whose other fields are valid. *)
Definition otherwise_valid (h : heap) (input : val) (aps : list val) : Prop :=
  exists l o la oa,
    input = VRef l /\ h !! l = Some o
    /\ is_Some (sanitizeId (obj_get o (lit "id")))
    /\ is_Some (sanitizeString (obj_get o (lit "name")) LIMITS.MAX_NAME_LENGTH)
    /\ is_Some (validateNumber (obj_get o (lit "level"))
                  (num_of_Z LIMITS.MIN_LEVEL) (num_of_Z LIMITS.MAX_LEVEL))
    /\ is_Some (VALID_COMPUTER_TYPES_has (obj_get o (lit "type")))
    /\ obj_get o (lit "accessPoints") = VRef la
    /\ h !! la = Some oa /\ o_elems oa = Some aps
    /\ Forall (fun ap => is_Some (validateAccessPoint ap h).1) aps.

(** The payload [input] has an [accessPoints] array of elements [aps]. *)
Definition has_accessPoints (h : heap) (input : val) (aps : list val) : Prop :=
  exists la oa,
    (getProp input (lit "accessPoints") h).1 = VRef la
    /\ h !! la = Some oa /\ o_elems oa = Some aps.

(** ** Example payloads *)

Definition accessPoint_example (position connectedTo : loc) : obj :=
  object [ ("id", VStr (lit "ap-1")); ("name", VStr (lit "Main Access"));
           ("type", VStr (lit "physical")); ("state", VStr (lit "locked"));
           ("position", VRef position); ("connectedTo", VRef connectedTo) ].

Definition computer_example (accessPoints : loc) : obj :=
  object [ ("id", VStr (lit "comp-1")); ("name", VStr (lit "Test Computer"));
           ("level", VNum (num_of_Z 5)); ("type", VStr (lit "tech"));
           ("accessPoints", VRef accessPoints) ].

(** A computer at location 0 with [n] access points. *)
Definition computer_heap (n : nat) : heap :=
  <[ 0%nat := computer_example 1%nat ]>
  (<[ 1%nat := array (replicate n (VRef 2%nat)) ]>
  (<[ 2%nat := accessPoint_example 3%nat 4%nat ]>
  (<[ 3%nat := object [ ("x", VNum (num_of_Z 100)); ("y", VNum (num_of_Z 200)) ] ]>
  (<[ 4%nat := array [ VStr (lit "ap-2") ] ]> ∅)))).

(** An effect payload whose [effectType] holds markup. *)
Definition effect_heap : heap :=
  <[ 0%nat := object [ ("effectType", VStr (lit "<b>")) ] ]> ∅.

(** A request for [/ws/room-1] as [gm], with the secret [s3cret] in the
    query when [withSecret] holds. *)
Definition gm_request (withSecret : bool) : Worker.Request :=
  Worker.mkRequest (lit "GET") (lit "https://sync.example") (lit "/ws/room-1")
    ((lit "role", lit "gm")
     :: if withSecret then [ (lit "secret", lit "s3cret") ] else [])
    [ (lit "Upgrade", lit "websocket") ].

(** A request for [/ws/room-1] with an unknown role. *)
Definition admin_request : Worker.Request :=
  Worker.mkRequest (lit "GET") (lit "https://sync.example") (lit "/ws/room-1")
    [ (lit "role", lit "admin"); (lit "role", lit "gm") ] [].

Definition open_env : Worker.Env := Worker.mkEnv None None.

Definition secret_env : Worker.Env := Worker.mkEnv None (Some (lit "s3cret")).

(** A room whose computer has the single access point [ap-1], with a
    controller (connection 1) and an observer (connection 2). *)
Definition room_example : HackingSession.Room :=
  HackingSession.mkRoom
    (HackingSession.mkRoomState
       (Some (mkComputer (lit "comp-1") (lit "Test Computer") (num_of_Z 5) tech None
                [ mkAccessPoint (lit "ap-1") (lit "Main Access") physical locked
                    (mkPosition (num_of_Z 100) (num_of_Z 200)) [] ]))
       None (num_of_Z 0))
    (<[ 1%nat := HackingSession.controller ]>
       (<[ 2%nat := HackingSession.observer ]> ∅))
    None.

(** A focus payload naming a node the computer does not have. *)
Definition focus_heap : heap :=
  <[ 0%nat := object [ ("nodeId", VStr (lit "ghost")) ] ]> ∅.


(** An intensity payload at location 0. *)
Definition intensity_heap (v : val) : heap :=
  <[ 0%nat := object [ ("value", v) ] ]> ∅.

(** ** Well-formed results

    What the validators promise about the values they return. *)

(** A character [sanitizeString] neither strips nor escapes. *)
Definition plain_char (c : jschar) : Prop :=
  is_stripped_control c = false
  /\ c ≠ 38%N /\ c ≠ 60%N /\ c ≠ 62%N /\ c ≠ 34%N /\ c ≠ 39%N.

(** A string without leading or trailing white space. *)
Definition trimmed_string (s : jsstring) : Prop :=
  (forall c, head s = Some c -> is_whitespace c = false)
  /\ (forall c, last s = Some c -> is_whitespace c = false).

(** An id as [sanitizeId] returns them. *)
Definition well_formed_id (s : jsstring) : Prop :=
  matches_id_pattern s /\ (length s <= 50)%nat.

(** A text as [sanitizeString] returns them for the limit [maxLength]. *)
Definition well_formed_text (maxLength : Z) (s : jsstring) : Prop :=
  s ≠ [] /\ Z.of_nat (length s) <= maxLength
  /\ clean [tab; newline; carriage_return] s.

(** A finite number between the integers [lo] and [hi]. *)
Definition in_range (lo hi : Z) (n : num) : Prop :=
  exists q, n = Fin q /\ (inject_Z lo <= q)%Q /\ (q <= inject_Z hi)%Q.

Definition well_formed_position (p : Position) : Prop :=
  in_range (-10000) 10000 (pos_x p) /\ in_range (-10000) 10000 (pos_y p).

Definition well_formed_access_point (ap : AccessPoint) : Prop :=
  well_formed_id (ap_id ap)
  /\ well_formed_text 100 (ap_name ap)
  /\ well_formed_position (ap_position ap)
  /\ (length (ap_connectedTo ap) <= 10)%nat
  /\ Forall well_formed_id (ap_connectedTo ap).

Definition well_formed_computer (c : Computer) : Prop :=
  well_formed_id (c_id c)
  /\ well_formed_text 100 (c_name c)
  /\ in_range (-1) 25 (c_level c)
  /\ (forall d, c_description c = Some d -> well_formed_text 1000 d)
  /\ (length (c_accessPoints c) <= 20)%nat
  /\ Forall well_formed_access_point (c_accessPoints c).

(** The wire name of a node state. *)
Definition NodeState_name (st : NodeState) : jsstring :=
  match st with
  | locked => lit "locked"
  | active => lit "active"
  | breached => lit "breached"
  | alarmed => lit "alarmed"
  end.

(** The payload [input] is an object of the heap whose fields other than
    the access points are valid and whose [accessPoints] field is an array
    of elements [aps]. *)
Definition computer_fields_valid (h : heap) (input : val) (aps : list val)
  : Prop :=
  exists l o la oa,
    input = VRef l /\ h !! l = Some o
    /\ is_Some (sanitizeId (obj_get o (lit "id")))
    /\ is_Some (sanitizeString (obj_get o (lit "name")) LIMITS.MAX_NAME_LENGTH)
    /\ is_Some (validateNumber (obj_get o (lit "level"))
                  (num_of_Z LIMITS.MIN_LEVEL) (num_of_Z LIMITS.MAX_LEVEL))
    /\ is_Some (VALID_COMPUTER_TYPES_has (obj_get o (lit "type")))
    /\ obj_get o (lit "accessPoints") = VRef la
    /\ h !! la = Some oa /\ o_elems oa = Some aps.

(** A computer whose third access point (index 2) is [null]. *)
Definition broken_computer_heap : heap :=
  <[ 1%nat := array [ VRef 2%nat; VRef 2%nat; VNull; VRef 2%nat ] ]>
    (computer_heap 0).

(** An effect payload with a padded [nodeId] and a blank [effectType]. *)
Definition half_valid_effect_heap : heap :=
  <[ 0%nat := object [ ("nodeId", VStr (lit " ap-1 "));
                       ("effectType", VStr (lit "   ")) ] ]> ∅.

(** What one block [if (payload.k !== undefined) { ... payload.k = s }] of
    [validateEffectPayload] does to the payload object [o]: the error of a
    value that does not sanitize, or the object with the sanitized value
    written back (the object itself when the property is absent). *)
Definition sanitize_field (k : jsstring) (sanitize : val -> option jsstring)
    (error : string) (o : obj) : string + obj :=
  match obj_get o k with
  | VUndef => inr o
  | v =>
      match sanitize v with
      | None => inl error
      | Some s => inr (obj_set o k (VStr s))
      end
  end.

(** The value of the [Access-Control-Allow-Origin] header of a header list. *)
Definition allow_origin (hs : list (jsstring * jsstring)) : option jsstring :=
  Worker.searchParams_get hs (lit "Access-Control-Allow-Origin").

(** The entries of the configured allow-list of origins. *)
Definition allowed_origins (env : Worker.Env) : list jsstring :=
  map trim (Worker.split 44%N (default [] (Worker.ALLOWED_ORIGINS env))).

(** A request for [/ws/room-1] as [gm] with the right secret in the query
    and another one in the [X-GM-Secret] header. *)
Definition two_secrets_request : Worker.Request :=
  Worker.mkRequest (lit "GET") (lit "https://sync.example") (lit "/ws/room-1")
    [ (lit "role", lit "gm"); (lit "secret", lit "s3cret") ]
    [ (lit "x-gm-secret", lit "guess") ].

(** A deployment that allows two origins. *)
Definition cors_env : Worker.Env :=
  Worker.mkEnv (Some (lit "https://a.example, https://b.example")) None.

(** ** The client store ([stores/visualizationStore.ts])

    The reactive state is threaded explicitly; what a function sends to the
    [BroadcastChannel], writes to [localStorage] or schedules is returned as
    a list of events. The deep watcher on [state.computer], which saves
    again after the function has returned, is not part of the functions
    modelled here. *)

Module Store.

Inductive EffectType : Type :=
  | breach | alarm | vulnerability | countermeasure | lockout
  | success | data_extract | scan | trace | pulse.

Definition EFFECT_DURATIONS (t : EffectType) : Z :=
  match t with
  | breach => 2000
  | alarm => 3000
  | vulnerability => 1500
  | countermeasure => 2500
  | lockout => 4000
  | success => 5000
  | data_extract => 2000
  | scan => 1000
  | trace => 10000
  | pulse => 800
  end.

Record Effect : Type := mkEffect {
  e_id : jsstring;
  e_type : EffectType;
  e_targetNodeId : option jsstring;
  e_startTime : Z;
  e_duration : Z;
  e_intensity : option num;
}.

(** [uuid] is [crypto.randomUUID()] and [now] is [Date.now()]. *)
Definition createEffect (uuid : jsstring) (now : Z) (type : EffectType)
    (targetNodeId : option jsstring) : Effect :=
  mkEffect uuid type targetNodeId now (EFFECT_DURATIONS type) (Some (num_of_Z 1)).

Record SavedEncounter : Type := mkSavedEncounter {
  se_id : jsstring;
  se_name : jsstring;
  se_computer : Computer;
  se_savedAt : Z;
}.

Record VisualizationState : Type := mkState {
  computer : option Computer;
  activeEffects : list Effect;
  focusedNodeId : option jsstring;
  ambientIntensity : num;
  isGMView : bool;
  savedEncounters : list SavedEncounter;
}.

(** The messages of the channel, [{ type, payload }]. *)
Inductive Message : Type :=
  | MsgEffect (payload : Effect)
  | MsgNodeState (nodeId : jsstring) (state : NodeState)
  | MsgFocus (nodeId : option jsstring)
  | MsgIntensity (value : num)
  | MsgComputer (payload : Computer)
  | MsgClearEffects
  | MsgOther (type : jsstring).

Inductive Event : Type :=
  | Posted (m : Message)
  | SavedState (computer : Computer) (ambientIntensity : num)
  | SavedEncounters (encounters : list SavedEncounter)
  | Timeout (effectId : jsstring) (delay : Z).

(** [Math.min] and [Math.max] of two numbers. *)
Definition Math_min (a b : num) : num :=
  match a, b with
  | NaN, _ | _, NaN => NaN
  | _, _ => if num_lt b a then b else a
  end.

Definition Math_max (a b : num) : num :=
  match a, b with
  | NaN, _ | _, NaN => NaN
  | _, _ => if num_lt a b then b else a
  end.

(** [channel] tells whether the [BroadcastChannel] was opened. *)
Definition broadcast (channel : bool) (m : Message) : list Event :=
  if channel then [Posted m] else [].

Definition saveToLocalStorage (st : VisualizationState) : list Event :=
  match computer st with
  | Some c => [SavedState c (ambientIntensity st)]
  | None => []
  end.

Definition with_computer (st : VisualizationState) (c : option Computer)
  : VisualizationState :=
  mkState c (activeEffects st) (focusedNodeId st) (ambientIntensity st)
          (isGMView st) (savedEncounters st).

Definition with_effects (st : VisualizationState) (es : list Effect)
  : VisualizationState :=
  mkState (computer st) es (focusedNodeId st) (ambientIntensity st)
          (isGMView st) (savedEncounters st).

Definition with_focus (st : VisualizationState) (n : option jsstring)
  : VisualizationState :=
  mkState (computer st) (activeEffects st) n (ambientIntensity st)
          (isGMView st) (savedEncounters st).

Definition with_intensity (st : VisualizationState) (v : num)
  : VisualizationState :=
  mkState (computer st) (activeEffects st) (focusedNodeId st) v
          (isGMView st) (savedEncounters st).

Definition with_encounters (st : VisualizationState) (l : list SavedEncounter)
  : VisualizationState :=
  mkState (computer st) (activeEffects st) (focusedNodeId st)
          (ambientIntensity st) (isGMView st) l.

(** [node.state = s] on the node found by
    [accessPoints.find(ap => ap.id === nodeId)], in place. *)
Definition assignNodeState (nodeId : jsstring) (s : NodeState) (c : Computer)
  : option Computer :=
  match list_find (fun ap => ap_id ap = nodeId) (c_accessPoints c) with
  | Some (i, node) =>
      Some (mkComputer (c_id c) (c_name c) (c_level c) (c_type c)
              (c_description c)
              (<[i := mkAccessPoint (ap_id node) (ap_name node) (ap_type node) s
                        (ap_position node) (ap_connectedTo node)]>
                 (c_accessPoints c)))
  | None => None
  end.

(** [channel.onmessage] *)
Definition onmessage (m : Message) (st : VisualizationState)
  : VisualizationState :=
  match m with
  | MsgEffect payload => with_effects st (activeEffects st ++ [payload])
  | MsgNodeState nodeId s =>
      match computer st with
      | Some c =>
          match assignNodeState nodeId s c with
          | Some c' => with_computer st (Some c')
          | None => st
          end
      | None => st
      end
  | MsgFocus nodeId => with_focus st nodeId
  | MsgIntensity value => with_intensity st value
  | MsgComputer payload => with_computer st (Some payload)
  | MsgClearEffects => with_effects st []
  | MsgOther _ => st
  end.

Definition loadComputer (channel : bool) (c : Computer) (st : VisualizationState)
  : VisualizationState * list Event :=
  let st' := with_computer st (Some c) in
  (st', broadcast channel (MsgComputer c) ++ saveToLocalStorage st').

Definition setNodeState (channel : bool) (nodeId : jsstring) (newState : NodeState)
    (st : VisualizationState) : VisualizationState * list Event :=
  match computer st with
  | None => (st, [])
  | Some c =>
      match assignNodeState nodeId newState c with
      | Some c' =>
          let st' := with_computer st (Some c') in
          (st', broadcast channel (MsgNodeState nodeId newState)
                ++ saveToLocalStorage st')
      | None => (st, [])
      end
  end.

(** [a || b || undefined] on optional strings. *)
Definition first_truthy (a b : option jsstring) : option jsstring :=
  match a with
  | Some (_ :: _) => a
  | _ => match b with
         | Some (_ :: _) => b
         | _ => None
         end
  end.

Definition triggerEffect (channel : bool) (uuid : jsstring) (now : Z)
    (type : EffectType) (targetNodeId : option jsstring)
    (st : VisualizationState) : VisualizationState * list Event :=
  let effect :=
    createEffect uuid now type (first_truthy targetNodeId (focusedNodeId st)) in
  (with_effects st (activeEffects st ++ [effect]),
   broadcast channel (MsgEffect effect) ++ [Timeout (e_id effect) (e_duration effect)]).

(** The callback [triggerEffect] hands to [setTimeout] for the effect of id
    [effectId]. *)
Definition effectTimeout (effectId : jsstring) (st : VisualizationState)
  : VisualizationState :=
  match list_find (fun e => e_id e = effectId) (activeEffects st) with
  | Some (index, _) => with_effects st (delete index (activeEffects st))
  | None => st
  end.

Definition setFocus (channel : bool) (nodeId : option jsstring)
    (st : VisualizationState) : VisualizationState * list Event :=
  (with_focus st nodeId, broadcast channel (MsgFocus nodeId)).

Definition setAmbientIntensity (channel : bool) (value : num)
    (st : VisualizationState) : VisualizationState * list Event :=
  let st' := with_intensity st (Math_max (num_of_Z 0) (Math_min (num_of_Z 1) value)) in
  (st', broadcast channel (MsgIntensity (ambientIntensity st'))).

Definition clearEffects (channel : bool) (st : VisualizationState)
  : VisualizationState * list Event :=
  (with_effects st [], broadcast channel MsgClearEffects).

Definition deleteEncounter (encounterId : jsstring) (st : VisualizationState)
  : VisualizationState * list Event :=
  match list_find (fun e => se_id e = encounterId) (savedEncounters st) with
  | Some (index, _) =>
      let st' := with_encounters st (delete index (savedEncounters st)) in
      (st', [SavedEncounters (savedEncounters st')])
  | None => (st, [])
  end.

End Store.

(** Two tabs show the same thing when computer, effects, focus and
    intensity agree. *)
Definition in_sync (a b : Store.VisualizationState) : Prop :=
  Store.computer a = Store.computer b
  /\ Store.activeEffects a = Store.activeEffects b
  /\ Store.focusedNodeId a = Store.focusedNodeId b
  /\ Store.ambientIntensity a = Store.ambientIntensity b.

(** The state of a tab after it has handled the messages posted in [evs]. *)
Fixpoint deliver (evs : list Store.Event) (st : Store.VisualizationState)
  : Store.VisualizationState :=
  match evs with
  | [] => st
  | Store.Posted m :: evs' => deliver evs' (Store.onmessage m st)
  | _ :: evs' => deliver evs' st
  end.

(** A store state with the computer [c]. *)
Definition store_example (c : option Computer) : Store.VisualizationState :=
  Store.mkState c [] None (Fin (7 # 10)) false [].

Definition two_node_computer : Computer :=
  mkComputer (lit "comp-1") (lit "Test Computer") (num_of_Z 5) tech None
    [ mkAccessPoint (lit "ap-1") (lit "Main Access") physical locked
        (mkPosition (num_of_Z 0) (num_of_Z 0)) [];
      mkAccessPoint (lit "ap-2") (lit "Backdoor") remote locked
        (mkPosition (num_of_Z 1) (num_of_Z 1)) [lit "ap-1"];
      mkAccessPoint (lit "ap-2") (lit "Shadow") remote locked
        (mkPosition (num_of_Z 1) (num_of_Z 0)) [] ].

(** Two representations of the same number. *)
Definition same_number (a b : num) : Prop :=
  match a, b with
  | Fin p, Fin q => (p == q)%Q
  | NaN, NaN | PosInf, PosInf | NegInf, NegInf => True
  | _, _ => False
  end.

(** The access point [node] with the state [s]. *)
Definition node_with_state (node : AccessPoint) (s : NodeState) : AccessPoint :=
  mkAccessPoint (ap_id node) (ap_name node) (ap_type node) s
                (ap_position node) (ap_connectedTo node).

(** The steps of [sanitizeString] before trimming: control characters
    stripped, markup characters escaped. *)
Definition stripped_and_escaped (s : jsstring) : jsstring :=
  replaceAll 39%N (lit "&#x27;")
    (replaceAll 34%N (lit "&quot;")
      (replaceAll 62%N (lit "&gt;")
        (replaceAll 60%N (lit "&lt;")
          (replaceAll 38%N (lit "&amp;")
            (filter (fun c => is_stripped_control c = false) s))))).

(** A health probe and the body field that tells whether the gm secret is
    enforced. *)
Definition health_request : Worker.Request :=
  Worker.mkRequest (lit "GET") (lit "https://sync.example") (lit "/health") [] [].

Definition reports_gm_auth (o : Worker.Outcome) : option val :=
  match o with
  | Worker.Respond r =>
      match Worker.body r with
      | Worker.Json fields =>
          snd <$> head (filter (fun f => f.1 = lit "gmAuthEnabled") fields)
      | _ => None
      end
  | _ => None
  end.

(** ** Colours ([utils/colors.ts]) *)

Module Colors.

Record RGB : Type := mkRGB {
  r : Z;
  g : Z;
  b : Z;
}.

(** The character class [[a-f\d]] under the [i] flag. *)
Definition is_hex_digit (c : jschar) : bool :=
  let n := Z.of_N c in
  ((48 <=? n) && (n <=? 57)) || ((97 <=? n) && (n <=? 102))
  || ((65 <=? n) && (n <=? 70)).

Definition hex_digit_value (c : jschar) : Z :=
  let n := Z.of_N c in
  if (48 <=? n) && (n <=? 57) then n - 48
  else if (97 <=? n) && (n <=? 102) then n - 87
  else if (65 <=? n) && (n <=? 70) then n - 55
  else 0.

(** [parseInt(s, 16)] on a string of hexadecimal digits. *)
Definition parseInt16 (s : jsstring) : Z :=
  fold_left (fun acc c => 16 * acc + hex_digit_value c) s 0.

(** [/^#?([a-f\d]{2})([a-f\d]{2})([a-f\d]{2})$/i.exec(hex)]: the three
    groups. A leading [#] can only be matched by [#?], since it is no
    hexadecimal digit. *)
Definition hex_groups (hex : jsstring) : option (jsstring * jsstring * jsstring) :=
  let body := match hex with 35%N :: rest => rest | _ => hex end in
  match body with
  | [c1; c2; c3; c4; c5; c6] =>
      if forallb is_hex_digit body then Some ([c1; c2], [c3; c4], [c5; c6])
      else None
  | _ => None
  end.

Definition hexToRgb (hex : jsstring) : RGB :=
  match hex_groups hex with
  | Some (g1, g2, g3) => mkRGB (parseInt16 g1) (parseInt16 g2) (parseInt16 g3)
  | None => mkRGB 30 203 225
  end.

Definition hex_char (d : Z) : jschar :=
  Z.to_N (if d <? 10 then 48 + d else 87 + d).

(** The hexadecimal digits of a natural number, most significant first. *)
Fixpoint hex_digits (fuel : nat) (n : Z) (acc : jsstring) : jsstring :=
  match fuel with
  | O => acc
  | S fuel' =>
      let acc' := hex_char (n mod 16) :: acc in
      if n / 16 =? 0 then acc' else hex_digits fuel' (n / 16) acc'
  end.

(** [n.toString(16)] for an integer [n]. *)
Definition int_toString16 (n : Z) : jsstring :=
  if n <? 0 then 45%N :: hex_digits (S (Z.to_nat (Z.log2 (- n)))) (- n) []
  else hex_digits (S (Z.to_nat (Z.log2 n))) n [].

(** [Math.round(q)]: the nearest integer, halves going up. *)
Definition Math_round (q : Q) : Z := Qfloor (q + (1 # 2)).

(** [Math.round(x).toString(16)] *)
Definition round_toString16 (x : num) : jsstring :=
  match x with
  | Fin q => int_toString16 (Math_round q)
  | NaN => lit "NaN"
  | PosInf => lit "Infinity"
  | NegInf => lit "-Infinity"
  end.

Definition channel (x : num) : jsstring :=
  let hex := round_toString16 x in
  match hex with
  | [_] => 48%N :: hex
  | _ => hex
  end.

Definition rgbToHex (r g b : num) : jsstring :=
  35%N :: channel r ++ channel g ++ channel b.

End Colors.

(** The lower-case form of a hexadecimal digit. *)
Definition lower_hex (c : jschar) : jschar :=
  if ((65 <=? c) && (c <=? 70))%N then (c + 32)%N else c.

(** The two digits of a colour channel read back as the number written. *)
Definition channel_round_trips (z : Z) : bool :=
  match Colors.channel (num_of_Z z) with
  | [c1; c2] =>
      Colors.is_hex_digit c1 && Colors.is_hex_digit c2
      && (Colors.parseInt16 [c1; c2] =? z)
  | _ => false
  end.

(** The number read from two digits is written back as these digits, in
    lower case. *)
Definition digits_round_trip (p : jschar * jschar) : bool :=
  bool_decide (Colors.channel (num_of_Z (Colors.parseInt16 [p.1; p.2]))
               = [lower_hex p.1; lower_hex p.2]).

Definition hex_digit_chars : list jschar :=
  lit "0123456789abcdefABCDEF".

(** A node-state payload at location 0. *)
Definition node_state_heap : heap :=
  <[ 0%nat := object [ ("nodeId", VStr (lit " ap-1 "));
                       ("state", VStr (lit "breached")) ] ]> ∅.

(** The origin the CORS headers are computed for:
    [request.headers.get('Origin') || '*']. *)
Definition requested_origin (request : Worker.Request) : jsstring :=
  match Worker.headers_get (Worker.headers request) (lit "Origin") with
  | Some (c :: r) => c :: r
  | _ => lit "*"
  end.

(** A health request that states its origin. *)
Definition origin_request (o : string) : Worker.Request :=
  Worker.mkRequest (lit "GET") (lit "https://sync.example") (lit "/health") []
    [ (lit "origin", lit o) ].

(** A request for the root path. *)
Definition root_request : Worker.Request :=
  Worker.mkRequest (lit "GET") (lit "https://sync.example") (lit "/") [] [].

(** The request is answered by the redirect of the root path. *)
Definition root_path_request (request : Worker.Request) : Prop :=
  Worker.method request ≠ lit "OPTIONS"
  /\ (Worker.pathname request = lit "/" \/ Worker.pathname request = []).

(** ** Strings *)

Lemma trimStart_elem c s : c ∈ trimStart s -> c ∈ s.
Proof.
  induction s as [|d r IH]; simpl; [done|].
  destruct (is_whitespace d); [|done].
  intros H. apply elem_of_cons. right. by apply IH.
Qed.

Lemma trim_elem c s : c ∈ trim s -> c ∈ s.
Proof.
  unfold trim, trimEnd. rewrite elem_of_reverse. intros H.
  apply trimStart_elem in H. rewrite elem_of_reverse in H.
  by apply trimStart_elem.
Qed.

Lemma slice0_elem c s n : c ∈ slice0 s n -> c ∈ s.
Proof. unfold slice0. intros H. by apply (subseteq_take _ s) in H. Qed.

Lemma slice0_length s n : 0 <= n -> Z.of_nat (length (slice0 s n)) <= n.
Proof.
  intros Hn. unfold slice0. rewrite length_take.
  destruct (Z.ltb_spec n 0); lia.
Qed.

Lemma slice0_all s n : Z.of_nat (length s) <= n -> slice0 s n = s.
Proof.
  intros Hn. unfold slice0.
  destruct (Z.ltb_spec n 0); [lia|]. apply take_ge. lia.
Qed.

Lemma trimStart_fixed s :
  Forall (fun c => is_whitespace c = false) s -> trimStart s = s.
Proof. destruct 1 as [|c r Hc _]; simpl; [done|]. by rewrite Hc. Qed.

Lemma trim_fixed s :
  Forall (fun c => is_whitespace c = false) s -> trim s = s.
Proof.
  intros H. unfold trim, trimEnd. rewrite (trimStart_fixed s H).
  rewrite trimStart_fixed; [apply reverse_involutive|].
  by apply Forall_reverse.
Qed.

Lemma replaceAll_elem d c rep s :
  d ∈ replaceAll c rep s -> d ∈ rep \/ (d ∈ s /\ d ≠ c).
Proof.
  unfold replaceAll. induction s as [|e r IH]; simpl.
  - intros H. by apply elem_of_nil in H.
  - intros H. apply elem_of_app in H as [H|H].
    + destruct (N.eqb_spec e c) as [->|Hne]; [by left|].
      apply list_elem_of_singleton in H as ->. right. split; [left|done].
    + destruct (IH H) as [?|[? ?]]; [by left|right]. split; [by right|done].
Qed.

Lemma is_id_char_spec c : is_id_char c = true <-> id_char c.
Proof. unfold is_id_char, id_char. cbv zeta. lia. Qed.

Lemma id_char_not_whitespace c : is_id_char c = true -> is_whitespace c = false.
Proof. unfold is_id_char, is_whitespace. cbv zeta. lia. Qed.

Lemma id_regex_test_spec s : id_regex_test s = true <-> matches_id_pattern s.
Proof.
  unfold matches_id_pattern. destruct s as [|c r].
  - simpl. split; [done|]. by intros [? _].
  - unfold id_regex_test. rewrite forallb_forall, Forall_forall.
    split.
    + intros H. split; [done|]. intros x Hx.
      apply is_id_char_spec, H. by apply list_elem_of_In.
    + intros [_ H] x Hx. apply is_id_char_spec, H. by apply list_elem_of_In.
Qed.

(** Membership in a list given by its elements. *)
Ltac elem_cases H :=
  repeat (apply elem_of_cons in H as [H|H]); [..|by apply elem_of_nil in H].

Lemma escaped_clean c s :
  c ∈ replaceAll 39%N (lit "&#x27;")
        (replaceAll 34%N (lit "&quot;")
          (replaceAll 62%N (lit "&gt;")
            (replaceAll 60%N (lit "&lt;")
              (replaceAll 38%N (lit "&amp;")
                (filter (fun c => is_stripped_control c = false) s))))) ->
  ~ html_special c /\ (ascii_control c -> c ∈ [tab; newline; carriage_return]).
Proof.
  unfold html_special, ascii_control, tab, newline, carriage_return.
  intros H.
  repeat (apply replaceAll_elem in H as [H|[H ?]]);
    try (unfold lit in H; simpl in H; elem_cases H; subst c; split; lia).
  apply list_elem_of_filter in H as [Hc _].
  split; [lia|]. intros Hctl.
  assert (c = 9 \/ c = 10 \/ c = 13)%N as [-> | [-> | ->]]
    by (unfold is_stripped_control in Hc; cbv zeta in Hc; lia).
  - by left.
  - right. by left.
  - right. right. by left.
Qed.

(** C9 (as amended): for every input and every limit, [sanitizeString]
    returns either null or a non-empty string, of length at most the limit
    when the limit is not negative, without raw less-than, greater-than,
    double-quote or single-quote characters and without ASCII control
    characters other than tab, newline and carriage return. *)
Theorem sanitizeString_sanitized (input : val) (maxLength : Z) :
  match sanitizeString input maxLength with
  | None => True
  | Some s =>
      s ≠ [] /\ (0 <= maxLength -> Z.of_nat (length s) <= maxLength)
      /\ clean [tab; newline; carriage_return] s
  end.
Proof.
  destruct input as [| | | |s|]; simpl; try done.
  match goal with |- context [slice0 ?t maxLength] => set (cleaned := t) end.
  destruct (slice0 cleaned maxLength) as [|c r] eqn:E; [done|].
  rewrite <- E. split; [by rewrite E|]. split.
  - apply slice0_length.
  - apply Forall_forall. intros d Hd.
    apply slice0_elem in Hd. subst cleaned. apply trim_elem in Hd.
    exact (escaped_clean d s Hd).
Qed.

Lemma sanitizeString_sanitized_witness :
  sanitizeString (VStr (lit " <b>x")) 5 = Some (lit "&lt;b")
  /\ lit "&lt;b" ≠ []
  /\ (0 <= 5 -> Z.of_nat (length (lit "&lt;b")) <= 5)
  /\ clean [tab; newline; carriage_return] (lit "&lt;b").
Proof.
  split; [vm_compute; reflexivity|].
  exact (sanitizeString_sanitized (VStr (lit " <b>x")) 5).
Defined.

(** C9 (as stated) fails: a carriage return inside the text survives, and a
    negative limit cuts from the end instead of bounding the length. *)
Lemma sanitizeString_not_as_claimed :
  (exists s, sanitizeString (VStr [97; 13; 98]%N) 500 = Some s
             /\ ~ clean [tab; newline] s)
  /\ (exists s, sanitizeString (VStr (lit "abc")) (-1) = Some s
                /\ ~ Z.of_nat (length s) <= -1).
Proof.
  split.
  - exists [97; 13; 98]%N. split; [by vm_compute|].
    intros H. apply Forall_cons in H as [_ H]. apply Forall_cons in H as [[_ H] _].
    assert (carriage_return ∈ [tab; newline]) as Hin
      by (apply H; left; by vm_compute).
    unfold carriage_return, tab, newline in Hin. elem_cases Hin; discriminate.
  - exists (lit "ab"). split; [by vm_compute|]. simpl. lia.
Qed.

Lemma sanitizeId_accepted (input : val) (s : jsstring) :
  sanitizeId input = Some s ->
  matches_id_pattern s /\ (length s <= 50)%nat /\ sanitizeId (VStr s) = Some s.
Proof.
  destruct input as [| | | |s0|]; simpl; try done.
  set (trimmed := slice0 (trim s0) LIMITS.MAX_ID_LENGTH).
  destruct (id_regex_test trimmed) eqn:Htest; simpl; [|done].
  destruct trimmed as [|c r] eqn:E; [done|]. intros [= <-].
  rewrite <- E in *.
  assert (Z.of_nat (length trimmed) <= 50) as Hlen
    by (apply slice0_length; lia).
  pose proof (proj1 (id_regex_test_spec trimmed) Htest) as Hpat.
  split; [done|]. split; [lia|].
  assert (trim trimmed = trimmed) as ->.
  { apply trim_fixed. destruct Hpat as [_ Hpat].
    eapply Forall_impl; [exact Hpat|]. intros x Hx.
    by apply id_char_not_whitespace, is_id_char_spec. }
  rewrite slice0_all by exact Hlen. rewrite Htest. simpl. by rewrite E.
Qed.

(** C10: on every input on which [sanitizeId] returns a string [s], [s]
    matches [^[a-zA-Z0-9_-]+$], has at most 50 characters and is returned
    unchanged by [sanitizeId]. *)
Theorem sanitizeId_idempotent (input : val) (s : jsstring) :
  sanitizeId input = Some s ->
  matches_id_pattern s /\ (length s <= 50)%nat /\ sanitizeId (VStr s) = Some s.
Proof. apply sanitizeId_accepted. Qed.

Lemma sanitizeId_idempotent_witness :
  sanitizeId (VStr (lit "  abc-123_XYZ ")) = Some (lit "abc-123_XYZ")
  /\ matches_id_pattern (lit "abc-123_XYZ")
  /\ (length (lit "abc-123_XYZ") <= 50)%nat
  /\ sanitizeId (VStr (lit "abc-123_XYZ")) = Some (lit "abc-123_XYZ").
Proof.
  split; [vm_compute; reflexivity|].
  apply (sanitizeId_idempotent (VStr (lit "  abc-123_XYZ "))).
  vm_compute; reflexivity.
Defined.

(** ** Message types *)

Lemma validTypes_recognized s : s ∈ validTypes <-> s ∈ recognized_types.
Proof.
  unfold validTypes, recognized_types.
  rewrite !elem_of_cons, !elem_of_nil. tauto.
Qed.

(** C8: [validateMessageType] returns its input exactly when the input is
    one of the nine recognized type strings, and null on every other input,
    string or not. *)
Theorem validateMessageType_spec (input : val) :
  (forall s, validateMessageType input = Some s
             <-> input = VStr s /\ s ∈ recognized_types)
  /\ ((~ exists s, input = VStr s /\ s ∈ recognized_types)
      -> validateMessageType input = None).
Proof.
  split.
  - intros s. destruct input as [| | | |s0|]; simpl;
      try (split; [done | by intros [? _]]).
    case_bool_decide as Hin.
    + split.
      * intros [= <-]. split; [done|]. by apply validTypes_recognized.
      * by intros [[= <-] _].
    + split; [done|]. intros [[= <-] Hs]. by apply validTypes_recognized in Hs.
  - intros Hno. destruct input as [| | | |s0|]; simpl; try done.
    case_bool_decide as Hin; [|done].
    exfalso. apply Hno. exists s0. split; [done|]. by apply validTypes_recognized.
Qed.

Lemma validateMessageType_spec_witness :
  validateMessageType (VStr (lit "clear-effects")) = Some (lit "clear-effects")
  /\ validateMessageType (VStr (lit "execute")) = None
  /\ validateMessageType (VNum (num_of_Z 123)) = None.
Proof.
  split; [|split].
  - apply (proj1 (validateMessageType_spec (VStr (lit "clear-effects")))).
    split; [reflexivity|]. unfold recognized_types.
    rewrite !elem_of_cons. tauto.
  - apply (proj2 (validateMessageType_spec (VStr (lit "execute")))).
    intros [s [[= <-] Hs]]. unfold recognized_types in Hs.
    elem_cases Hs; discriminate.
  - apply (proj2 (validateMessageType_spec (VNum (num_of_Z 123)))).
    by intros [s [? _]].
Defined.

(** ** Numbers *)

Lemma num_lt_Fin_false (p q : Q) :
  num_lt (Fin p) (Fin q) = false <-> (q <= p)%Q.
Proof.
  simpl. rewrite Qle_alt, <- (Qcompare_antisym p q).
  destruct (Qcompare p q); simpl; split; congruence.
Qed.

Lemma validateNumber_spec (input : val) (lo hi : Z) (n : num) :
  validateNumber input (num_of_Z lo) (num_of_Z hi) = Some n
  <-> exists q, input = VNum (Fin q) /\ n = Fin q
                /\ (inject_Z lo <= q)%Q /\ (q <= inject_Z hi)%Q.
Proof.
  unfold validateNumber, num_gt, num_of_Z.
  destruct input as [| | |[q| | |]| |];
    try (split; [done | by intros (? & ? & _)]).
  cbn [isFinite negb].
  destruct (num_lt (Fin q) (Fin (inject_Z lo))) eqn:Elo;
    destruct (num_lt (Fin (inject_Z hi)) (Fin q)) eqn:Ehi; cbn [orb];
    rewrite <- ?not_true_iff_false, ?num_lt_Fin_false in *.
  4: { apply not_true_iff_false, num_lt_Fin_false in Elo, Ehi.
       split; [intros [= <-]; by exists q | by intros (q' & [= <-] & -> & _)]. }
  all: split; [done|]; intros (q' & [= <-] & _ & Hlo & Hhi).
  all: first [ apply num_lt_Fin_false in Hlo; congruence
             | apply num_lt_Fin_false in Hhi; congruence ].
Qed.

Lemma not_an_object_ref l : not_an_object (VRef l) = false.
Proof. reflexivity. Qed.

Lemma not_an_object_inv v : not_an_object v = false -> exists l, v = VRef l.
Proof.
  destruct v as [| |b|n|s|l]; try done; [| | |by exists l].
  - by destruct b.
  - unfold not_an_object. cbn [typeof_object negb]. by rewrite orb_true_r.
  - unfold not_an_object. cbn [typeof_object negb]. by rewrite orb_true_r.
Qed.

Lemma validateIntensityPayload_run (input : val) (h : heap) :
  validateIntensityPayload input h
  = (if not_an_object input then Invalid "Invalid intensity payload"
     else match validateNumber (getProp input (lit "value") h).1
                  (num_of_Z 0) (num_of_Z 1) with
          | None => Invalid "Intensity must be between 0 and 1"
          | Some value => Valid value
          end, h).
Proof.
  unfold validateIntensityPayload. destruct (not_an_object input) eqn:E; [done|].
  apply not_an_object_inv in E as [l ->].
  unfold mbind, M_bind, getProp. cbn [fst snd].
  change (num_of_Z LIMITS.MIN_INTENSITY) with (num_of_Z 0).
  change (num_of_Z LIMITS.MAX_INTENSITY) with (num_of_Z 1).
  by destruct (validateNumber _ _ _).
Qed.

Lemma validateIntensityPayload_accepts (input : val) (h : heap) (n : num) :
  (validateIntensityPayload input h).1 = Valid n
  <-> exists q, n = Fin q /\ intensity_object h input q.
Proof.
  rewrite validateIntensityPayload_run. cbn [fst].
  destruct (not_an_object input) eqn:Hobj.
  - split; [done|]. intros (q & _ & l & o & -> & _). done.
  - apply not_an_object_inv in Hobj as [l ->].
    unfold getProp. cbn [fst].
    destruct (validateNumber _ _ _) as [m|] eqn:Hnum.
    + apply validateNumber_spec in Hnum as (q & Hget & -> & Hlo & Hhi).
      split.
      * intros [= <-]. exists q. split; [done|].
        destruct (h !! l) as [o|] eqn:Hl; [|done].
        by exists l, o.
      * intros (q' & -> & l' & o & [= <-] & Hl & Hv & _).
        rewrite Hl, Hv in Hget. by injection Hget as ->.
    + split; [done|].
      intros (q & -> & l' & o & [= <-] & Hl & Hv & Hlo & Hhi).
      rewrite Hl, Hv in Hnum.
      assert (validateNumber (VNum (Fin q)) (num_of_Z 0) (num_of_Z 1)
              = Some (Fin q)) as Hok
        by (apply validateNumber_spec; by exists q).
      congruence.
Qed.

(** C5: [validateIntensityPayload] accepts an input exactly when it is an
    object whose [value] field is a finite number between 0 and 1, both
    ends included, and returns that number; on every other input it
    returns invalid, with an error and no value. *)
Theorem validateIntensityPayload_spec (input : val) (h : heap) :
  (forall n, (validateIntensityPayload input h).1 = Valid n
             <-> exists q, n = Fin q /\ intensity_object h input q)
  /\ ((~ exists q, intensity_object h input q)
      -> exists e, (validateIntensityPayload input h).1 = Invalid e).
Proof.
  split; [apply validateIntensityPayload_accepts|].
  intros Hno.
  destruct (validateIntensityPayload input h).1 as [n|e] eqn:E; [|by exists e].
  apply validateIntensityPayload_accepts in E as (q & _ & Hq).
  exfalso. apply Hno. by exists q.
Qed.

Lemma validateIntensityPayload_spec_witness :
  (validateIntensityPayload (VRef 0%nat) (intensity_heap (VNum (Fin 1)))).1
  = Valid (Fin 1)
  /\ exists e, (validateIntensityPayload (VRef 0%nat) (intensity_heap (VNum NaN))).1
               = Invalid e.
Proof.
  split.
  - apply (proj1 (validateIntensityPayload_spec _ _)).
    exists 1%Q. split; [reflexivity|].
    exists 0%nat, (object [ ("value", VNum (Fin 1)) ]).
    split_and!; try (vm_compute; reflexivity); by vm_compute.
  - apply (proj2 (validateIntensityPayload_spec _ _)).
    intros (q & l & o & [= <-] & Hl & Hv & _).
    vm_compute in Hl. injection Hl as <-. by vm_compute in Hv.
Defined.

(** ** Heap effects of the validators *)

Lemma read_only_ret {A} (a : A) : read_only (mret a).
Proof. by intros h. Qed.

Lemma read_only_bind {A B} (m : M A) (f : A -> M B) :
  read_only m -> (forall a, read_only (f a)) -> read_only (m ≫= f).
Proof.
  intros Hm Hf h. unfold mbind, M_bind. rewrite Hm. apply Hf.
Qed.

Lemma read_only_getProp v k : read_only (getProp v k).
Proof. intros h. by destruct v. Qed.

Lemma read_only_arrayElems v : read_only (arrayElems v).
Proof. intros h. by destruct v. Qed.

(** The value of a bind whose first operation only reads. *)
Lemma bind_read_only {A B} (m : M A) (f : A -> M B) h :
  read_only m -> (m ≫= f) h = f (m h).1 h.
Proof. intros Hm. unfold mbind, M_bind. by rewrite Hm. Qed.

Ltac read_only_step :=
  first
    [ apply read_only_ret
    | apply read_only_getProp
    | apply read_only_arrayElems
    | solve [auto]
    | apply read_only_bind; [|intros ?]
    | match goal with
      | |- read_only (match ?x with _ => _ end) => destruct x
      | |- read_only (if ?b then _ else _) => destruct b
      end ].

Ltac solve_read_only := repeat read_only_step.

Lemma validatePosition_read_only input : read_only (validatePosition input).
Proof. unfold validatePosition. solve_read_only. Qed.

Lemma validateAccessPoint_read_only input : read_only (validateAccessPoint input).
Proof.
  pose proof validatePosition_read_only.
  unfold validateAccessPoint. solve_read_only.
Qed.

Lemma validateAccessPoints_read_only i elems acc :
  read_only (validateAccessPoints i elems acc).
Proof.
  revert i acc. induction elems as [|e r IH]; intros i acc; simpl.
  - apply read_only_ret.
  - apply read_only_bind; [apply validateAccessPoint_read_only|].
    intros [ap|]; [apply IH | apply read_only_ret].
Qed.

Lemma validateComputer_read_only input : read_only (validateComputer input).
Proof.
  pose proof validateAccessPoints_read_only.
  unfold validateComputer. solve_read_only.
Qed.

Lemma validateNodeStatePayload_read_only input :
  read_only (validateNodeStatePayload input).
Proof. unfold validateNodeStatePayload. solve_read_only. Qed.

Lemma validateFocusPayload_read_only input :
  read_only (validateFocusPayload input).
Proof. unfold validateFocusPayload. solve_read_only. Qed.

Lemma validateIntensityPayload_read_only input :
  read_only (validateIntensityPayload input).
Proof. unfold validateIntensityPayload. solve_read_only. Qed.

Lemma respects_ret {A} (R : relation heap) `{!Reflexive R} (a : A) :
  respects R (mret a).
Proof. intros h. reflexivity. Qed.

Lemma respects_bind {A B} (R : relation heap) `{!Transitive R}
    (m : M A) (f : A -> M B) :
  respects R m -> (forall a, respects R (f a)) -> respects R (m ≫= f).
Proof.
  intros Hm Hf h. unfold mbind, M_bind.
  transitivity (m h).2; [apply Hm | apply Hf].
Qed.

Lemma respects_read_only {A} (R : relation heap) `{!Reflexive R} (m : M A) :
  read_only m -> respects R m.
Proof. intros Hm h. rewrite Hm. reflexivity. Qed.

Lemma returns_ret {A} (P : A -> Prop) (a : A) : P a -> returns P (mret a).
Proof. by intros Ha h. Qed.

Lemma returns_bind {A B} (P : B -> Prop) (m : M A) (f : A -> M B) :
  (forall a, returns P (f a)) -> returns P (m ≫= f).
Proof. intros Hf h. unfold mbind, M_bind. apply Hf. Qed.

#[local] Instance effect_frame_refl l0 : Reflexive (effect_frame l0).
Proof.
  intros h. split; [done|]. split; [done|]. intros o Ho. by exists o.
Qed.

#[local] Instance effect_frame_trans l0 : Transitive (effect_frame l0).
Proof.
  intros h1 h2 h3 (Hne1 & Hnone1 & Hsome1) (Hne2 & Hnone2 & Hsome2).
  split; [|split].
  - intros l Hl. by rewrite Hne2, Hne1.
  - intros Hl. by apply Hnone2, Hnone1.
  - intros o Ho.
    destruct (Hsome1 o Ho) as (o1 & Ho1 & He1 & Hp1).
    destruct (Hsome2 o1 Ho1) as (o2 & Ho2 & He2 & Hp2).
    exists o2. split; [done|]. split; [congruence|].
    intros k Hk1 Hk2. by rewrite Hp2, Hp1.
Qed.

Lemma setProp_effect_frame l0 k x :
  k = lit "nodeId" \/ k = lit "effectType" ->
  respects (effect_frame l0) (setProp (VRef l0) k x).
Proof.
  intros Hk h. unfold setProp. cbn [snd].
  destruct (h !! l0) as [o|] eqn:Hl; [|reflexivity].
  split; [|split].
  - intros l Hne. by rewrite lookup_insert_ne.
  - intros Hnone. congruence.
  - intros o' Ho'. assert (o' = o) as -> by congruence. exists (obj_set o k x).
    rewrite lookup_insert_eq. split; [done|]. split; [done|].
    intros k' Hk1 Hk2. cbn [obj_set o_props].
    rewrite lookup_insert_ne; [done|]. by destruct Hk as [-> | ->].
Qed.

Lemma validateEffectPayload_effect_frame l0 :
  respects (effect_frame l0) (validateEffectPayload (VRef l0)).
Proof.
  unfold validateEffectPayload. rewrite not_an_object_ref.
  repeat first
    [ apply respects_ret; apply _
    | apply respects_read_only; [apply _ | apply read_only_getProp]
    | apply setProp_effect_frame; auto
    | apply respects_bind; [apply _ | | intros ?]
    | match goal with
      | |- respects _ (match ?x with _ => _ end) => destruct x
      end ].
Qed.

Lemma validateEffectPayload_not_object input h :
  not_an_object input = true ->
  validateEffectPayload input h = (Invalid "Invalid effect payload", h).
Proof. intros H. unfold validateEffectPayload. by rewrite H. Qed.

Lemma validateEffectPayload_returns_input input :
  returns (fun r => forall v, r = Valid v -> v = input)
          (validateEffectPayload input).
Proof.
  unfold validateEffectPayload.
  repeat first
    [ apply returns_ret; (done || by intros ? [= <-])
    | apply returns_bind; intros ?
    | match goal with
      | |- returns _ (match ?x with _ => _ end) => destruct x
      | |- returns _ (if ?b then _ else _) => destruct b
      end ].
Qed.

(** C7 (as amended): [validateComputer], [validateNodeStatePayload],
    [validateFocusPayload] and [validateIntensityPayload] leave the heap,
    and so the payload they are given, unchanged, and their results are
    records built from sanitized copies. [validateEffectPayload] sanitizes in
    place: it may overwrite the [nodeId] and [effectType] properties of the
    payload object, changes nothing else, and on success returns the payload
    object itself. *)
Theorem validators_heap_effects (input : val) (h : heap) :
  (validateComputer input h).2 = h
  /\ (validateNodeStatePayload input h).2 = h
  /\ (validateFocusPayload input h).2 = h
  /\ (validateIntensityPayload input h).2 = h
  /\ match input with
     | VRef l0 => effect_frame l0 h (validateEffectPayload input h).2
     | _ => (validateEffectPayload input h).2 = h
     end
  /\ (forall v, (validateEffectPayload input h).1 = Valid v -> v = input).
Proof.
  split; [apply validateComputer_read_only|].
  split; [apply validateNodeStatePayload_read_only|].
  split; [apply validateFocusPayload_read_only|].
  split; [apply validateIntensityPayload_read_only|].
  split; [|apply validateEffectPayload_returns_input].
  destruct input as [| |b|n|s|l0];
    try (by rewrite validateEffectPayload_not_object).
  - rewrite validateEffectPayload_not_object; [done|]. by destruct b.
  - rewrite validateEffectPayload_not_object; [done|].
    unfold not_an_object. cbn [typeof_object negb]. apply orb_true_r.
  - rewrite validateEffectPayload_not_object; [done|].
    unfold not_an_object. cbn [typeof_object negb]. apply orb_true_r.
  - apply validateEffectPayload_effect_frame.
Qed.

Lemma validators_heap_effects_witness :
  (validateComputer (VRef 0%nat) effect_heap).2 = effect_heap
  /\ (validateNodeStatePayload (VRef 0%nat) effect_heap).2 = effect_heap
  /\ (validateFocusPayload (VRef 0%nat) effect_heap).2 = effect_heap
  /\ (validateIntensityPayload (VRef 0%nat) effect_heap).2 = effect_heap
  /\ effect_frame 0%nat effect_heap
       (validateEffectPayload (VRef 0%nat) effect_heap).2
  /\ (forall v, (validateEffectPayload (VRef 0%nat) effect_heap).1 = Valid v
                -> v = VRef 0%nat).
Proof. exact (validators_heap_effects (VRef 0%nat) effect_heap). Defined.

(** C7 (as stated) fails on [validateEffectPayload]: the [effectType] of
    the payload object is overwritten with its escaped form, and the value
    returned is the payload object itself. *)
Lemma validateEffectPayload_mutates_payload :
  (getProp (VRef 0%nat) (lit "effectType") effect_heap).1 = VStr (lit "<b>")
  /\ (validateEffectPayload (VRef 0%nat) effect_heap).1 = Valid (VRef 0%nat)
  /\ (getProp (VRef 0%nat) (lit "effectType")
        (validateEffectPayload (VRef 0%nat) effect_heap).2).1
     = VStr (lit "&lt;b&gt;")
  /\ (validateEffectPayload (VRef 0%nat) effect_heap).2 ≠ effect_heap.
Proof.
  assert ((getProp (VRef 0%nat) (lit "effectType")
             (validateEffectPayload (VRef 0%nat) effect_heap).2).1
          = VStr (lit "&lt;b&gt;")) as Hafter by (vm_compute; reflexivity).
  split; [vm_compute; reflexivity|].
  split; [vm_compute; reflexivity|].
  split; [exact Hafter|].
  intros Heq. rewrite Heq in Hafter. vm_compute in Hafter. discriminate.
Qed.

(** ** The access-point limit of [validateComputer] *)

Lemma getProp_ref l k h o :
  h !! l = Some o -> (getProp (VRef l) k h).1 = obj_get o k.
Proof. intros Hl. unfold getProp. cbn [fst]. by rewrite Hl. Qed.

Lemma arrayElems_ref l h o :
  h !! l = Some o -> (arrayElems (VRef l) h).1 = o_elems o.
Proof. intros Hl. unfold arrayElems. cbn [fst]. by rewrite Hl. Qed.

Lemma validateAccessPoints_all_valid h elems :
  Forall (fun ap => is_Some (validateAccessPoint ap h).1) elems ->
  forall i acc, exists aps,
    validateAccessPoints i elems acc h = (Valid (acc ++ aps), h)
    /\ length aps = length elems.
Proof.
  induction 1 as [|e r [ap He] _ IH]; intros i acc.
  - exists []. by rewrite app_nil_r.
  - cbn [validateAccessPoints].
    rewrite bind_read_only by apply validateAccessPoint_read_only.
    rewrite He. destruct (IH (S i) (acc ++ [ap])) as (aps & Hrun & Hlen).
    exists (ap :: aps). rewrite Hrun, <- app_assoc. split; [done|].
    simpl. by rewrite Hlen.
Qed.

Ltac run_read :=
  rewrite bind_read_only
    by first [apply read_only_getProp | apply read_only_arrayElems].

Lemma validateComputer_within_limit h input aps :
  otherwise_valid h input aps ->
  Z.of_nat (length aps) <= LIMITS.MAX_ACCESS_POINTS ->
  exists c, validateComputer input h = (Valid c, h)
            /\ length (c_accessPoints c) = length aps.
Proof.
  intros (l & o & la & oa & -> & Hl & [id Hid] & [name Hname] & [level Hlevel]
          & [type Htype] & Haps & Hla & Helems & Hall) Hlen.
  unfold validateComputer. rewrite not_an_object_ref.
  run_read. rewrite (getProp_ref _ _ _ _ Hl), Hid.
  run_read. rewrite (getProp_ref _ _ _ _ Hl), Hname.
  run_read. rewrite (getProp_ref _ _ _ _ Hl), Hlevel.
  run_read. rewrite (getProp_ref _ _ _ _ Hl), Htype.
  run_read. rewrite (getProp_ref _ _ _ _ Hl).
  run_read. rewrite (getProp_ref _ _ _ _ Hl), Haps.
  run_read. rewrite (arrayElems_ref _ _ _ Hla), Helems.
  destruct (Z.gtb_spec (Z.of_nat (length aps)) LIMITS.MAX_ACCESS_POINTS); [lia|].
  rewrite bind_read_only by apply validateAccessPoints_read_only.
  destruct (validateAccessPoints_all_valid h aps Hall 0%nat []) as (vs & -> & Hvs).
  cbn [fst]. eexists. split; [reflexivity|]. by cbn.
Qed.

Lemma validateComputer_over_limit h input aps :
  has_accessPoints h input aps ->
  Z.of_nat (length aps) > LIMITS.MAX_ACCESS_POINTS ->
  exists e, validateComputer input h = (Invalid e, h)
            /\ (otherwise_valid h input aps ->
                e = "Too many access points (max 20)").
Proof.
  intros (la & oa & Haps & Hla & Helems) Hlen.
  unfold validateComputer.
  destruct (not_an_object input) eqn:Hobj.
  { eexists. split; [reflexivity|].
    intros (l & ? & ? & ? & -> & _). done. }
  run_read. destruct (sanitizeId _) as [id|] eqn:Hid.
  2: { eexists. split; [reflexivity|].
       intros (l & o & ? & ? & -> & Hl & [? Hid'] & _).
       rewrite (getProp_ref _ _ _ _ Hl) in Hid. congruence. }
  run_read. destruct (sanitizeString _ _) as [name|] eqn:Hname.
  2: { eexists. split; [reflexivity|].
       intros (l & o & ? & ? & -> & Hl & _ & [? Hname'] & _).
       rewrite (getProp_ref _ _ _ _ Hl) in Hname. congruence. }
  run_read. destruct (validateNumber _ _ _) as [level|] eqn:Hlevel.
  2: { eexists. split; [reflexivity|].
       intros (l & o & ? & ? & -> & Hl & _ & _ & [? Hlevel'] & _).
       rewrite (getProp_ref _ _ _ _ Hl) in Hlevel. congruence. }
  run_read. destruct (VALID_COMPUTER_TYPES_has _) as [type|] eqn:Htype.
  2: { eexists. split; [reflexivity|].
       intros (l & o & ? & ? & -> & Hl & _ & _ & _ & [? Htype'] & _).
       rewrite (getProp_ref _ _ _ _ Hl) in Htype. congruence. }
  run_read. run_read. rewrite Haps.
  run_read. rewrite (arrayElems_ref _ _ _ Hla), Helems.
  destruct (Z.gtb_spec (Z.of_nat (length aps)) LIMITS.MAX_ACCESS_POINTS); [|lia].
  eexists. split; [reflexivity|]. intros _. by vm_compute.
Qed.

(** C4: a computer payload whose [accessPoints] array has exactly 20
    elements, the maximum, and whose fields are otherwise valid is accepted
    by [validateComputer]; a payload whose array has more than 20 elements
    is rejected with an error message (the one about too many access points
    when the other fields are valid), without a sanitized value and with the
    heap left as it was. *)
Theorem validateComputer_access_point_limit
    (h : heap) (input : val) (aps : list val) :
  (otherwise_valid h input aps ->
   Z.of_nat (length aps) = LIMITS.MAX_ACCESS_POINTS ->
   exists c, validateComputer input h = (Valid c, h)
             /\ length (c_accessPoints c) = 20%nat)
  /\ (has_accessPoints h input aps ->
      Z.of_nat (length aps) > LIMITS.MAX_ACCESS_POINTS ->
      exists e, validateComputer input h = (Invalid e, h)
                /\ (otherwise_valid h input aps ->
                    e = "Too many access points (max 20)")).
Proof.
  split.
  - intros Hvalid Hlen.
    destruct (validateComputer_within_limit h input aps Hvalid) as (c & Hc & Hn).
    + lia.
    + exists c. split; [done|]. rewrite Hn. unfold LIMITS.MAX_ACCESS_POINTS in Hlen.
      lia.
  - apply validateComputer_over_limit.
Qed.

Lemma validateComputer_access_point_limit_witness :
  (exists c, validateComputer (VRef 0%nat) (computer_heap 20)
             = (Valid c, computer_heap 20)
             /\ length (c_accessPoints c) = 20%nat)
  /\ (exists e, validateComputer (VRef 0%nat) (computer_heap 21)
                = (Invalid e, computer_heap 21)
                /\ (otherwise_valid (computer_heap 21) (VRef 0%nat)
                       (replicate 21 (VRef 2%nat))
                    -> e = "Too many access points (max 20)")).
Proof.
  split.
  - apply (proj1 (validateComputer_access_point_limit (computer_heap 20)
                    (VRef 0%nat) (replicate 20 (VRef 2%nat)))).
    + exists 0%nat, (computer_example 1%nat), 1%nat,
             (array (replicate 20 (VRef 2%nat))).
      split_and!;
        [ reflexivity | vm_compute; reflexivity
        | vm_compute; eexists; reflexivity | vm_compute; eexists; reflexivity
        | vm_compute; eexists; reflexivity | vm_compute; eexists; reflexivity
        | vm_compute; reflexivity | vm_compute; reflexivity | reflexivity | ].
      apply Forall_replicate. vm_compute. eexists. reflexivity.
    + reflexivity.
  - apply (proj2 (validateComputer_access_point_limit (computer_heap 21)
                    (VRef 0%nat) (replicate 21 (VRef 2%nat)))).
    + exists 1%nat, (array (replicate 21 (VRef 2%nat))).
      split_and!; vm_compute; reflexivity.
    + reflexivity.
Defined.

(** ** Admission *)

Lemma searchParams_get_set ps name value :
  Worker.searchParams_get (Worker.searchParams_set ps name value) name
  = Some value.
Proof.
  induction ps as [|[k v] r IH]; simpl.
  - by rewrite decide_True.
  - destruct (decide (k = name)) as [->|Hne]; simpl.
    + by rewrite decide_True.
    + by rewrite decide_False.
Qed.

Lemma filter_name_removed (name : jsstring) (ps : list (jsstring * jsstring)) :
  filter (fun p => p.1 = name) (filter (fun p => p.1 ≠ name) ps) = [].
Proof.
  induction ps as [|[k v] r IH]; [done|].
  destruct (decide (k = name)) as [->|Hne].
  - rewrite (filter_cons_False (fun p => p.1 ≠ name)); [done|]. simpl. tauto.
  - rewrite (filter_cons_True (fun p => p.1 ≠ name)) by done.
    by rewrite filter_cons_False.
Qed.

Lemma searchParams_set_single ps name value :
  filter (fun p => p.1 = name) (Worker.searchParams_set ps name value)
  = [(name, value)].
Proof.
  induction ps as [|[k v] r IH]; simpl.
  - by rewrite filter_cons_True.
  - destruct (decide (k = name)) as [->|Hne].
    + rewrite filter_cons_True by done. by rewrite filter_name_removed.
    + by rewrite filter_cons_False.
Qed.

Lemma fetch_admission now request env sessionId :
  admission_request request sessionId ->
  Worker.fetch now request env
  = if decide (requests_gm request) then
      if Worker.configured (Worker.GM_SECRET env)
         && negb (bool_decide (Worker.providedSecret request = Worker.GM_SECRET env))
      then Worker.Respond (Worker.unauthorized (Worker.getCorsHeaders request env))
      else Worker.StubFetch sessionId
             (Worker.mkRequest (Worker.method request) (Worker.origin request)
                (Worker.pathname request)
                (Worker.searchParams_set (Worker.searchParams request)
                   (lit "role") (Worker.role_name Worker.gm))
                (Worker.headers request))
    else Worker.StubFetch sessionId
           (Worker.mkRequest (Worker.method request) (Worker.origin request)
              (Worker.pathname request)
              (Worker.searchParams_set (Worker.searchParams request)
                 (lit "role") (Worker.role_name Worker.player))
              (Worker.headers request)).
Proof.
  intros [Hmethod Hmatch]. unfold Worker.fetch, requests_gm.
  rewrite decide_False by done. by rewrite Hmatch.
Qed.

(** C1: for every admission request to [/ws/{roomId}] asking for the role
    [gm]: without a configured secret the request is handed to the room
    with the role [gm]; with a configured secret and a supplied secret
    (header [X-GM-Secret] or query parameter [secret]) that is missing or
    differs from it, the worker answers 401 with the code [UNAUTHORIZED]
    itself, and no Durable Object is contacted. *)
Theorem gm_admission (now : jsstring) (request : Worker.Request)
    (env : Worker.Env) (sessionId : jsstring) :
  admission_request request sessionId ->
  requests_gm request ->
  (Worker.configured (Worker.GM_SECRET env) = false ->
   exists doRequest,
     Worker.fetch now request env = Worker.StubFetch sessionId doRequest
     /\ role_annotation doRequest = [lit "gm"])
  /\ (Worker.configured (Worker.GM_SECRET env) = true ->
      Worker.providedSecret request ≠ Worker.GM_SECRET env ->
      exists r,
        Worker.fetch now request env = Worker.Respond r
        /\ Worker.status r = 401
        /\ Worker.body r
           = Worker.Json [ (lit "error", VStr (lit "UNAUTHORIZED"));
                           (lit "message", VStr (lit "Invalid or missing GM secret")) ]).
Proof.
  intros Hadm Hgm. rewrite (fetch_admission _ _ _ _ Hadm).
  rewrite decide_True by done. split.
  - intros ->. cbn [andb]. eexists. split; [reflexivity|].
    unfold role_annotation. cbn [Worker.searchParams].
    by rewrite searchParams_set_single.
  - intros -> Hsecret. rewrite bool_decide_eq_false_2 by done. cbn [andb negb].
    eexists. by split.
Qed.

Lemma gm_admission_witness :
  (exists doRequest,
     Worker.fetch [] (gm_request false) open_env
     = Worker.StubFetch (lit "room-1") doRequest
     /\ role_annotation doRequest = [lit "gm"])
  /\ (exists r,
        Worker.fetch [] (gm_request false) secret_env = Worker.Respond r
        /\ Worker.status r = 401
        /\ Worker.body r
           = Worker.Json [ (lit "error", VStr (lit "UNAUTHORIZED"));
                           (lit "message", VStr (lit "Invalid or missing GM secret")) ]).
Proof.
  split.
  - apply (gm_admission [] (gm_request false) open_env (lit "room-1")).
    + split; [by vm_compute | vm_compute; reflexivity].
    + vm_compute; reflexivity.
    + reflexivity.
  - apply (gm_admission [] (gm_request false) secret_env (lit "room-1")).
    + split; [by vm_compute | vm_compute; reflexivity].
    + vm_compute; reflexivity.
    + reflexivity.
    + by vm_compute.
Defined.

(** C3: the role annotation of the request handed to the room coordinator
    is the single value the worker determined, not the value the client
    sent: the forwarded request carries exactly one [role] parameter, it is
    the literal [gm] exactly when the client asked for [gm] and the secret
    check, if a secret is configured, passed, and the literal [player] in
    every other case, whatever role value was requested. *)
Theorem confirmed_role (now : jsstring) (request : Worker.Request)
    (env : Worker.Env) (sessionId sessionId' : jsstring)
    (doRequest : Worker.Request) :
  admission_request request sessionId ->
  Worker.fetch now request env = Worker.StubFetch sessionId' doRequest ->
  sessionId' = sessionId
  /\ (role_annotation doRequest = [lit "gm"]
      \/ role_annotation doRequest = [lit "player"])
  /\ (role_annotation doRequest = [lit "gm"]
      <-> requests_gm request /\ secret_check_passes request env)
  /\ (role_annotation doRequest = [lit "player"] <-> ~ requests_gm request).
Proof.
  intros Hadm. rewrite (fetch_admission _ _ _ _ Hadm).
  assert (Hne : [lit "gm"] ≠ [lit "player"]) by (by vm_compute).
  unfold secret_check_passes.
  destruct (decide (requests_gm request)) as [Hgm|Hgm].
  - destruct (Worker.configured (Worker.GM_SECRET env)) eqn:Hconf; cbn [andb].
    + case_bool_decide as Hsecret; cbn [negb]; [|done].
      intros [= <- <-]. split; [done|].
      unfold role_annotation. cbn [Worker.searchParams Worker.role_name].
      rewrite searchParams_set_single. split; [by left|]. split.
      * split; [done|]. by intros _.
      * split; [|done]. intros E. by destruct Hne.
    + intros [= <- <-]. split; [done|].
      unfold role_annotation. cbn [Worker.searchParams Worker.role_name].
      rewrite searchParams_set_single. split; [by left|]. split.
      * split; [done|]. by intros _.
      * split; [|done]. intros E. by destruct Hne.
  - intros [= <- <-]. split; [done|].
    unfold role_annotation. cbn [Worker.searchParams Worker.role_name].
    rewrite searchParams_set_single. split; [by right|]. split.
    + split; [|by intros [? _]]. intros E. by destruct Hne.
    + done.
Qed.

Lemma confirmed_role_witness :
  (role_annotation
     (Worker.mkRequest (lit "GET") (lit "https://sync.example")
        (lit "/ws/room-1") [ (lit "role", lit "player") ] [])
   = [lit "player"]
   <-> ~ requests_gm admin_request)
  /\ (role_annotation
        (Worker.mkRequest (lit "GET") (lit "https://sync.example")
           (lit "/ws/room-1")
           [ (lit "role", lit "gm"); (lit "secret", lit "s3cret") ]
           [ (lit "Upgrade", lit "websocket") ])
      = [lit "gm"]
      <-> requests_gm (gm_request true)
          /\ secret_check_passes (gm_request true) secret_env).
Proof.
  split.
  - apply (confirmed_role [] admin_request open_env (lit "room-1") (lit "room-1")).
    + split; [by vm_compute | vm_compute; reflexivity].
    + vm_compute; reflexivity.
  - apply (confirmed_role [] (gm_request true) secret_env
             (lit "room-1") (lit "room-1")).
    + split; [by vm_compute | vm_compute; reflexivity].
    + vm_compute; reflexivity.
Defined.

(** ** Dispatch *)

(** C2: a message of a mutating type (a recognized type other than [ping]
    and [pong]) received from a connection admitted as observer leaves the
    room, and so RoomState, as it was and produces no frame for any
    connection; the payload is not even validated. *)
Theorem observer_message_dropped (now : nat) (sender : HackingSession.connId)
    (type payload : val) (room : HackingSession.Room) (h : heap) (t : jsstring) :
  HackingSession.registry room !! sender = Some HackingSession.observer ->
  validateMessageType type = Some t ->
  t ≠ lit "ping" -> t ≠ lit "pong" ->
  HackingSession.handleMessage now sender type payload room h = ((room, []), h).
Proof.
  intros Hrole Htype Hping Hpong. unfold HackingSession.handleMessage.
  rewrite Hrole, Htype. by rewrite !decide_False by done.
Qed.

Lemma observer_message_dropped_witness :
  HackingSession.handleMessage 0 2%nat (VStr (lit "focus")) (VRef 0%nat)
    room_example focus_heap
  = ((room_example, []), focus_heap).
Proof.
  apply (observer_message_dropped 0 2%nat (VStr (lit "focus")) (VRef 0%nat)
           room_example focus_heap (lit "focus")).
  - vm_compute; reflexivity.
  - vm_compute; reflexivity.
  - by vm_compute.
  - by vm_compute.
Defined.



(** What the dispatch does with a [focus] message of a controller: the
    validator of [validation.ts], then the look-up in the room state. *)
Lemma handleMessage_focus now sender payload room h :
  HackingSession.registry room !! sender = Some HackingSession.controller ->
  HackingSession.handleMessage now sender (VStr (lit "focus")) payload room h
  = (match (validateFocusPayload payload h).1 with
     | Valid n =>
         if HackingSession.references (HackingSession.state room) n
         then (focus_set now n room,
               HackingSession.broadcast sender (HackingSession.MFocus n)
                 (HackingSession.registry room))
         else (room, [])
     | Invalid _ => (room, [])
     end, h).
Proof.
  intros Hrole. unfold HackingSession.handleMessage. rewrite Hrole.
  change (validateMessageType (VStr (lit "focus"))) with (Some (lit "focus")).
  cbv beta iota. rewrite !decide_False by done.
  unfold HackingSession.validate.
  rewrite !decide_False by done. rewrite decide_True by done.
  rewrite bind_read_only
    by (apply read_only_bind; [apply validateFocusPayload_read_only|];
        intros ?; apply read_only_ret).
  rewrite bind_read_only by apply validateFocusPayload_read_only.
  unfold mret, M_ret. cbn [fst].
  destruct (validateFocusPayload payload h).1 as [n|e]; [|done].
  by destruct (HackingSession.references (HackingSession.state room) n).
Qed.



(** The look-up at work: the validator accepts the id [ghost], which has
    the form of an id, and the dispatch drops the message, the only access
    point of the computer being [ap-1]. *)
Lemma focus_on_unknown_node_dropped :
  (validateFocusPayload (VRef 0%nat) focus_heap).1 = Valid (Some (lit "ghost"))
  /\ accessPointIds (HackingSession.state room_example) = [lit "ap-1"]
  /\ HackingSession.handleMessage 0 1%nat (VStr (lit "focus")) (VRef 0%nat)
       room_example focus_heap
     = ((room_example, []), focus_heap).
Proof.
  split; [vm_compute; reflexivity|].
  split; [vm_compute; reflexivity|].
  rewrite handleMessage_focus by (vm_compute; reflexivity).
  vm_compute. reflexivity.
Qed.

(** ** Checks against the test suite *)

Example sanitizeString_escapes :
  sanitizeString (VStr (lit "it's a <test> & 'quote'")) LIMITS.MAX_STRING_LENGTH
  = Some (lit "it&#x27;s a &lt;test&gt; &amp; &#x27;quote&#x27;").
Proof. vm_compute. reflexivity. Qed.

Example sanitizeString_blank :
  sanitizeString (VStr (lit "   ")) LIMITS.MAX_STRING_LENGTH = None.
Proof. vm_compute. reflexivity. Qed.

Example sanitizeId_keeps :
  sanitizeId (VStr (lit "abc-123_XYZ")) = Some (lit "abc-123_XYZ").
Proof. vm_compute. reflexivity. Qed.

Example sanitizeId_rejects_path :
  sanitizeId (VStr (lit "../escape")) = None.
Proof. vm_compute. reflexivity. Qed.

Example validateComputer_too_many :
  (validateComputer (VRef 0%nat) (computer_heap 30)).1
  = Invalid "Too many access points (max 20)".
Proof. vm_compute. reflexivity. Qed.

Example validateComputer_rejects_null :
  (validateComputer VNull ∅).1 = Invalid "Invalid computer object".
Proof. vm_compute. reflexivity. Qed.

(** * Further properties of the code *)

(** ** [sanitizeString] and [sanitizeId] on well-formed input *)

Lemma trimStart_head c s : is_whitespace c = false -> trimStart (c :: s) = c :: s.
Proof. intros H. simpl. by rewrite H. Qed.

Lemma trim_trimmed s : trimmed_string s -> trim s = s.
Proof.
  intros [Hhead Hlast]. unfold trim, trimEnd.
  assert (trimStart s = s) as ->.
  { destruct s as [|c r]; [done|]. apply trimStart_head. by apply Hhead. }
  destruct (reverse s) as [|c r] eqn:E.
  - simpl. by rewrite <- E, reverse_involutive.
  - rewrite trimStart_head.
    + by rewrite <- E, reverse_involutive.
    + apply Hlast. by rewrite <- (reverse_involutive s), E, last_reverse.
Qed.

Lemma trimStart_whitespace s :
  Forall (fun c => is_whitespace c = true) s -> trimStart s = [].
Proof. induction 1 as [|c r Hc _ IH]; simpl; [done|]. by rewrite Hc. Qed.

Lemma replaceAll_absent c rep s : c ∉ s -> replaceAll c rep s = s.
Proof.
  unfold replaceAll. induction s as [|d r IH]; [done|].
  intros Hnot. apply not_elem_of_cons in Hnot as [Hne Hr]. simpl.
  destruct (N.eqb_spec d c) as [->|_]; [done|]. by rewrite IH.
Qed.

Lemma filter_all {A} (P : A -> Prop) `{!forall x, Decision (P x)} (l : list A) :
  Forall P l -> filter P l = l.
Proof.
  induction 1 as [|x r Hx _ IH]; [done|].
  by rewrite filter_cons_True, IH.
Qed.

(** A non-empty text made of characters that are neither stripped nor
    escaped, without white space at either end and within the limit, is
    returned by [sanitizeString] as it is. *)
Theorem sanitizeString_plain (s : jsstring) (maxLength : Z) :
  s ≠ [] -> Forall plain_char s -> trimmed_string s ->
  Z.of_nat (length s) <= maxLength ->
  sanitizeString (VStr s) maxLength = Some s.
Proof.
  intros Hne Hplain Htrim Hlen. unfold sanitizeString. cbv zeta.
  rewrite (filter_all (fun c => is_stripped_control c = false))
    by (eapply Forall_impl; [exact Hplain|]; by intros c [? _]).
  assert (forall c, c ∈ [38; 60; 62; 34; 39]%N -> c ∉ s) as Habsent.
  { intros c Hc Hin. rewrite Forall_forall in Hplain.
    destruct (Hplain _ Hin) as (_ & ? & ? & ? & ? & ?).
    elem_cases Hc; by subst c. }
  rewrite (replaceAll_absent 38%N), (replaceAll_absent 60%N),
    (replaceAll_absent 62%N), (replaceAll_absent 34%N), (replaceAll_absent 39%N)
    by (apply Habsent; rewrite !elem_of_cons; tauto).
  rewrite trim_trimmed by done. rewrite slice0_all by done.
  by destruct s.
Qed.

Lemma sanitizeString_plain_witness :
  sanitizeString (VStr (lit "Main Access")) LIMITS.MAX_NAME_LENGTH
  = Some (lit "Main Access").
Proof.
  apply sanitizeString_plain.
  - done.
  - unfold plain_char. repeat constructor; by vm_compute.
  - split; intros c [= <-]; by vm_compute.
  - by vm_compute.
Defined.

(** A text made only of white space and stripped control characters, the
    empty text included, is rejected by [sanitizeString] whatever the
    limit. *)
Theorem sanitizeString_blank_rejected (s : jsstring) (maxLength : Z) :
  Forall (fun c => is_whitespace c = true \/ is_stripped_control c = true) s ->
  sanitizeString (VStr s) maxLength = None.
Proof.
  intros Hblank. unfold sanitizeString. cbv zeta.
  set (kept := filter (fun c => is_stripped_control c = false) s).
  assert (Forall (fun c => is_whitespace c = true) kept) as Hws.
  { apply Forall_forall. intros c Hc.
    apply list_elem_of_filter in Hc as [Hctl Hc].
    rewrite Forall_forall in Hblank. destruct (Hblank c Hc); congruence. }
  assert (forall c, is_whitespace c = false -> c ∉ kept) as Habsent.
  { intros c Hc Hin. rewrite Forall_forall in Hws. apply Hws in Hin. congruence. }
  rewrite (replaceAll_absent 38%N), (replaceAll_absent 60%N),
    (replaceAll_absent 62%N), (replaceAll_absent 34%N), (replaceAll_absent 39%N)
    by (by apply Habsent).
  unfold trim. rewrite trimStart_whitespace by done.
  unfold trimEnd, slice0. cbn [reverse rev_append trimStart]. by rewrite take_nil.
Qed.

Lemma sanitizeString_blank_rejected_witness :
  sanitizeString (VStr [32; 9; 0; 10; 7; 32]%N) 500 = None.
Proof.
  apply sanitizeString_blank_rejected.
  apply Forall_forall. intros c Hc.
  elem_cases Hc; subst c; (by left) || (by right).
Defined.

Lemma trimStart_app_keep (a b : jsstring) :
  Forall (fun c => is_whitespace c = false) b ->
  exists y, trimStart (a ++ b) = y ++ b.
Proof.
  intros Hb. induction a as [|c a IH].
  - exists []. by apply trimStart_fixed.
  - simpl. destruct (is_whitespace c); [done|]. by exists (c :: a).
Qed.

Lemma trim_app_keep (p x : jsstring) :
  p ≠ [] -> Forall (fun c => is_whitespace c = false) p ->
  exists y, trim (p ++ x) = p ++ y.
Proof.
  intros Hne Hp. unfold trim, trimEnd.
  assert (trimStart (p ++ x) = p ++ x) as ->.
  { destruct p as [|c r]; [done|]. apply trimStart_head.
    by apply Forall_cons in Hp as [? _]. }
  rewrite reverse_app.
  destruct (trimStart_app_keep (reverse x) (reverse p)) as [y ->].
  { by apply Forall_reverse. }
  exists (reverse y). by rewrite reverse_app, reverse_involutive.
Qed.

(** The strings [sanitizeId] returns unchanged are exactly the well-formed
    ids: one to fifty characters of [[a-zA-Z0-9_-]]. *)
Theorem sanitizeId_fixed_points (s : jsstring) :
  sanitizeId (VStr s) = Some s <-> well_formed_id s.
Proof.
  split.
  - intros H. apply sanitizeId_accepted in H as (? & ? & _). by split.
  - intros [Hpat Hlen]. unfold sanitizeId.
    rewrite trim_fixed.
    + rewrite slice0_all by (unfold LIMITS.MAX_ID_LENGTH; lia).
      rewrite (proj2 (id_regex_test_spec s) Hpat). cbn [negb].
      destruct s; [by destruct Hpat|done].
    + destruct Hpat as [_ Hpat]. eapply Forall_impl; [exact Hpat|].
      intros c Hc. by apply id_char_not_whitespace, is_id_char_spec.
Qed.

(** Only the first fifty characters of an id are looked at: after fifty
    characters of [[a-zA-Z0-9_-]], whatever follows is cut off without being
    checked, and the id is accepted. *)
Theorem sanitizeId_checks_prefix_only (p x : jsstring) :
  Forall id_char p -> (50 <= length p)%nat ->
  sanitizeId (VStr (p ++ x)) = Some (take 50 p).
Proof.
  intros Hp Hlen. unfold sanitizeId.
  destruct (trim_app_keep p x) as [y ->].
  { intros ->. simpl in Hlen. lia. }
  { eapply Forall_impl; [exact Hp|]. intros c Hc.
    by apply id_char_not_whitespace, is_id_char_spec. }
  assert (slice0 (p ++ y) LIMITS.MAX_ID_LENGTH = take 50 p) as ->.
  { unfold slice0, LIMITS.MAX_ID_LENGTH. cbn [Z.ltb Z.compare].
    rewrite length_app.
    replace (Z.to_nat (Z.min 50 (Z.of_nat (length p + length y)))) with 50%nat
      by lia.
    by rewrite take_app_le. }
  assert (matches_id_pattern (take 50 p)) as Hpat.
  { split; [|by apply Forall_take].
    destruct p; [simpl in Hlen; lia|done]. }
  rewrite (proj2 (id_regex_test_spec _) Hpat). cbn [negb].
  destruct (take 50 p) eqn:E; [by destruct Hpat|done].
Qed.

Lemma sanitizeId_checks_prefix_only_witness :
  sanitizeId (VStr (replicate 50 97%N ++ lit "<script>"))
  = Some (take 50 (replicate 50 97%N)).
Proof.
  apply sanitizeId_checks_prefix_only.
  - apply Forall_replicate. unfold id_char. lia.
  - by rewrite length_replicate.
Defined.

(** ** Well-formed results of the payload validators *)

Lemma sanitizeString_well_formed input maxLength s :
  0 <= maxLength -> sanitizeString input maxLength = Some s ->
  well_formed_text maxLength s.
Proof.
  intros Hmax. destruct input as [| | | |s0|]; simpl; try done.
  match goal with |- context [slice0 ?t maxLength] => set (cleaned := t) end.
  destruct (slice0 cleaned maxLength) as [|c r] eqn:E; [done|].
  intros [= <-]. rewrite <- E. split; [by rewrite E|]. split.
  - by apply slice0_length.
  - apply Forall_forall. intros d Hd.
    apply slice0_elem in Hd. subst cleaned. apply trim_elem in Hd.
    exact (escaped_clean d s0 Hd).
Qed.

Lemma sanitizeId_well_formed input s :
  sanitizeId input = Some s -> well_formed_id s.
Proof. intros H. apply sanitizeId_accepted in H as (? & ? & _). by split. Qed.

Lemma validateNumber_in_range input lo hi n :
  validateNumber input (num_of_Z lo) (num_of_Z hi) = Some n <->
  input = VNum n /\ in_range lo hi n.
Proof.
  rewrite validateNumber_spec. unfold in_range. split.
  - intros (q & -> & -> & ? & ?). split; [done|]. by exists q.
  - intros (-> & q & -> & ? & ?). by exists q.
Qed.

Lemma validatePosition_run input h :
  validatePosition input h
  = (if not_an_object input then None
     else
       match validateNumber (getProp input (lit "x") h).1
               (num_of_Z (-10000)) (num_of_Z 10000),
             validateNumber (getProp input (lit "y") h).1
               (num_of_Z (-10000)) (num_of_Z 10000) with
       | Some x, Some y => Some (mkPosition x y)
       | _, _ => None
       end, h).
Proof.
  unfold validatePosition. destruct (not_an_object input); [done|].
  run_read. run_read.
  change (- LIMITS.MAX_POSITION_VALUE) with (-10000).
  change LIMITS.MAX_POSITION_VALUE with 10000.
  by repeat case_match.
Qed.

Lemma validatePosition_accepts (input : val) (h : heap) (p : Position) :
  (validatePosition input h).1 = Some p
  <-> exists l o,
        input = VRef l /\ h !! l = Some o
        /\ obj_get o (lit "x") = VNum (pos_x p)
        /\ obj_get o (lit "y") = VNum (pos_y p)
        /\ well_formed_position p.
Proof.
  rewrite validatePosition_run. cbn [fst]. split.
  - destruct (not_an_object input) eqn:Hobj; [done|].
    apply not_an_object_inv in Hobj as [l ->].
    destruct (validateNumber _ _ _) as [x|] eqn:Hx; [|done].
    destruct (validateNumber (getProp (VRef l) (lit "y") h).1 _ _) as [y|] eqn:Hy;
      [|done].
    intros [= <-]. apply validateNumber_in_range in Hx as [Hx ?], Hy as [Hy ?].
    unfold getProp in Hx, Hy. cbn [fst] in Hx, Hy.
    destruct (h !! l) as [o|] eqn:Hl; [|done]. by exists l, o.
  - intros (l & o & -> & Hl & Hx & Hy & Hwx & Hwy).
    rewrite not_an_object_ref, !(getProp_ref _ _ _ _ Hl), Hx, Hy.
    rewrite (proj2 (validateNumber_in_range _ _ _ _) (conj eq_refl Hwx)).
    rewrite (proj2 (validateNumber_in_range _ _ _ _) (conj eq_refl Hwy)).
    by destruct p.
Qed.

(** [validatePosition] accepts exactly the objects whose [x] and [y] are
    both finite numbers between -10000 and 10000, and returns these two
    numbers; a missing coordinate, a string or a number out of range gives
    null. *)
Theorem validatePosition_spec (input : val) (h : heap) (p : Position) :
  (validatePosition input h).1 = Some p
  <-> exists l o,
        input = VRef l /\ h !! l = Some o
        /\ obj_get o (lit "x") = VNum (pos_x p)
        /\ obj_get o (lit "y") = VNum (pos_y p)
        /\ well_formed_position p.
Proof. apply validatePosition_accepts. Qed.

Lemma sanitizeConnections_spec conns :
  forall acc r,
    sanitizeConnections conns acc = Some r ->
    exists ids, r = acc ++ ids
                /\ Forall2 (fun v id => sanitizeId v = Some id) conns ids.
Proof.
  induction conns as [|v conns IH]; intros acc r; simpl.
  - intros [= <-]. exists []. by rewrite app_nil_r.
  - destruct (sanitizeId v) as [id|] eqn:Hid; [|done]. intros Hr.
    destruct (IH _ _ Hr) as (ids & -> & Hids).
    exists (id :: ids). rewrite <- app_assoc. split; [done|]. by constructor.
Qed.

Lemma validateAccessPoint_well_formed input h ap :
  (validateAccessPoint input h).1 = Some ap -> well_formed_access_point ap.
Proof.
  unfold validateAccessPoint. destruct (not_an_object input); [done|].
  run_read. run_read.
  destruct (sanitizeId _) as [id|] eqn:Hid; [|done].
  destruct (sanitizeString _ _) as [name|] eqn:Hname; [|done].
  run_read. destruct (VALID_ACCESS_POINT_TYPES_has _); [|done].
  run_read. destruct (VALID_NODE_STATES_has _); [|done].
  run_read. rewrite bind_read_only by apply validatePosition_read_only.
  destruct (validatePosition _ h).1 as [pos|] eqn:Hpos; [|done].
  run_read. run_read. destruct (arrayElems _ h).1 as [conns|]; [|done].
  destruct (Z.gtb_spec (Z.of_nat (length conns)) LIMITS.MAX_CONNECTIONS_PER_NODE);
    [done|].
  destruct (sanitizeConnections conns []) as [ids|] eqn:Hconns; [|done].
  cbn. intros [= <-].
  apply sanitizeConnections_spec in Hconns as (ids' & -> & Hids).
  unfold well_formed_access_point. cbn.
  split; [by eapply sanitizeId_well_formed|].
  split; [by eapply sanitizeString_well_formed|].
  split; [by apply validatePosition_accepts in Hpos as (? & ? & _ & _ & _ & _ & ?)|].
  split.
  - apply Forall2_length in Hids. unfold LIMITS.MAX_CONNECTIONS_PER_NODE in *. lia.
  - apply Forall_forall. intros id' Hin.
    destruct (proj1 (list_elem_of_lookup _ _) Hin) as [i Hi].
    destruct (Forall2_lookup_r _ _ _ _ _ Hids Hi) as (v & _ & Hv).
    by eapply sanitizeId_well_formed.
Qed.

(** ** What [validateComputer] accepts, and what it returns *)

Lemma validateAccessPoints_inv h elems :
  forall i acc r h',
    validateAccessPoints i elems acc h = (Valid r, h') ->
    exists vs, r = acc ++ vs
               /\ Forall2 (fun e ap => (validateAccessPoint e h).1 = Some ap) elems vs.
Proof.
  induction elems as [|e elems IH]; intros i acc r h'.
  - cbn. intros [= <- _]. exists []. by rewrite app_nil_r.
  - cbn [validateAccessPoints].
    rewrite bind_read_only by apply validateAccessPoint_read_only.
    destruct (validateAccessPoint e h).1 as [ap|] eqn:He; [|done].
    intros Hr. destruct (IH _ _ _ _ Hr) as (vs & -> & Hvs).
    exists (ap :: vs). rewrite <- app_assoc. split; [done|]. by constructor.
Qed.

Lemma validateAccessPoints_first_invalid h good bad rest :
  Forall (fun ap => is_Some (validateAccessPoint ap h).1) good ->
  (validateAccessPoint bad h).1 = None ->
  forall i acc,
    validateAccessPoints i (good ++ bad :: rest) acc h
    = (Invalid ("Invalid access point at index " +:+ pretty (i + length good)%nat), h).
Proof.
  induction 1 as [|e good [ap He] _ IH]; intros Hbad i acc.
  - cbn [app validateAccessPoints length].
    rewrite bind_read_only by apply validateAccessPoint_read_only.
    rewrite Hbad. by rewrite Nat.add_0_r.
  - cbn [app validateAccessPoints length].
    rewrite bind_read_only by apply validateAccessPoint_read_only.
    rewrite He, IH by done.
    by replace (S i + length good)%nat with (i + S (length good))%nat by lia.
Qed.

Lemma validateComputer_inv input h c :
  (validateComputer input h).1 = Valid c ->
  exists l o la oa aps,
    input = VRef l /\ h !! l = Some o
    /\ sanitizeId (obj_get o (lit "id")) = Some (c_id c)
    /\ sanitizeString (obj_get o (lit "name")) LIMITS.MAX_NAME_LENGTH
       = Some (c_name c)
    /\ validateNumber (obj_get o (lit "level"))
         (num_of_Z LIMITS.MIN_LEVEL) (num_of_Z LIMITS.MAX_LEVEL) = Some (c_level c)
    /\ VALID_COMPUTER_TYPES_has (obj_get o (lit "type")) = Some (c_type c)
    /\ c_description c
       = match obj_get o (lit "description") with
         | VUndef | VNull => None
         | v => sanitizeString v LIMITS.MAX_DESCRIPTION_LENGTH
         end
    /\ obj_get o (lit "accessPoints") = VRef la
    /\ h !! la = Some oa /\ o_elems oa = Some aps
    /\ Z.of_nat (length aps) <= LIMITS.MAX_ACCESS_POINTS
    /\ Forall2 (fun e ap => (validateAccessPoint e h).1 = Some ap)
               aps (c_accessPoints c).
Proof.
  unfold validateComputer.
  destruct (not_an_object input) eqn:Hobj; [done|].
  apply not_an_object_inv in Hobj as [l ->].
  destruct (h !! l) as [o|] eqn:Hl.
  2: { run_read. unfold getProp at 1. cbn [fst]. by rewrite Hl. }
  run_read. rewrite (getProp_ref _ _ _ _ Hl).
  destruct (sanitizeId _) as [id|] eqn:Hid; [|done].
  run_read. rewrite (getProp_ref _ _ _ _ Hl).
  destruct (sanitizeString _ _) as [name|] eqn:Hname; [|done].
  run_read. rewrite (getProp_ref _ _ _ _ Hl).
  destruct (validateNumber _ _ _) as [level|] eqn:Hlevel; [|done].
  run_read. rewrite (getProp_ref _ _ _ _ Hl).
  destruct (VALID_COMPUTER_TYPES_has _) as [type|] eqn:Htype; [|done].
  run_read. rewrite (getProp_ref _ _ _ _ Hl).
  run_read. rewrite (getProp_ref _ _ _ _ Hl).
  run_read.
  destruct (obj_get o (lit "accessPoints")) as [| | | | |la] eqn:Haps; try done.
  unfold arrayElems at 1. cbn [fst].
  destruct (h !! la) as [oa|] eqn:Hla; [|done].
  destruct (o_elems oa) as [aps|] eqn:Helems; [|done].
  destruct (Z.gtb_spec (Z.of_nat (length aps)) LIMITS.MAX_ACCESS_POINTS); [done|].
  rewrite bind_read_only by apply validateAccessPoints_read_only.
  destruct (validateAccessPoints 0 aps [] h) as [[vs|e] h'] eqn:Hrun; [|done].
  unfold mret, M_ret. cbn [fst snd]. intros [= <-].
  apply validateAccessPoints_inv in Hrun as (vs' & -> & Hvs).
  exists l, o, la, oa, aps.
  cbn [c_id c_name c_level c_type c_description c_accessPoints app].
  split_and!; try done. by destruct (obj_get o (lit "description")).
Qed.

(** [validateComputer] accepts a payload exactly when its fields are valid,
    its [accessPoints] array has at most 20 elements and each element is a
    valid access point on its own: no check relates one access point to
    another, so duplicate ids and connections to unknown ids pass. *)
Theorem validateComputer_accepts_iff (input : val) (h : heap) :
  (exists c, (validateComputer input h).1 = Valid c)
  <-> exists aps, otherwise_valid h input aps
                  /\ Z.of_nat (length aps) <= LIMITS.MAX_ACCESS_POINTS.
Proof.
  split.
  - intros [c Hc].
    apply validateComputer_inv in Hc
      as (l & o & la & oa & aps & -> & Hl & Hid & Hname & Hlevel & Htype & _
          & Haps & Hla & Helems & Hlen & Hall).
    exists aps. split; [|done].
    exists l, o, la, oa. split_and!; try done; try by eexists.
    apply Forall_forall. intros e He.
    destruct (proj1 (list_elem_of_lookup _ _) He) as [i Hi].
    destruct (Forall2_lookup_l _ _ _ _ _ Hall Hi) as (ap & _ & Hap).
    by exists ap.
  - intros (aps & Hvalid & Hlen).
    destruct (validateComputer_within_limit h input aps Hvalid Hlen) as (c & Hc & _).
    exists c. by rewrite Hc.
Qed.

(** Every computer [validateComputer] returns is well formed: id and name
    within their patterns and limits, a finite level between -1 and 25, a
    description (when kept) within 1000 characters, at most 20 access
    points, each with a well-formed id, name, position and at most 10
    well-formed connection ids. *)
Theorem validateComputer_well_formed (input : val) (h : heap) (c : Computer) :
  (validateComputer input h).1 = Valid c -> well_formed_computer c.
Proof.
  intros Hc.
  apply validateComputer_inv in Hc
    as (l & o & la & oa & aps & -> & Hl & Hid & Hname & Hlevel & Htype & Hdesc
        & Haps & Hla & Helems & Hlen & Hall).
  split; [by eapply sanitizeId_well_formed|].
  split; [by eapply sanitizeString_well_formed|].
  split; [by apply validateNumber_in_range in Hlevel as [_ ?]|].
  split.
  { intros d Hd. rewrite Hd in Hdesc.
    destruct (obj_get o (lit "description")); try done;
      by eapply sanitizeString_well_formed. }
  split.
  { apply Forall2_length in Hall. unfold LIMITS.MAX_ACCESS_POINTS in Hlen. lia. }
  apply Forall_forall. intros ap Hap.
  destruct (proj1 (list_elem_of_lookup _ _) Hap) as [i Hi].
  destruct (Forall2_lookup_r _ _ _ _ _ Hall Hi) as (e & _ & He).
  by eapply validateAccessPoint_well_formed.
Qed.

(** The access points of an accepted computer are the validated elements of
    the payload's array, one for one and in the same order. *)
Theorem validateComputer_keeps_order (input : val) (h : heap) (c : Computer) :
  (validateComputer input h).1 = Valid c ->
  exists aps,
    has_accessPoints h input aps
    /\ Forall2 (fun e ap => (validateAccessPoint e h).1 = Some ap)
               aps (c_accessPoints c).
Proof.
  intros Hc.
  apply validateComputer_inv in Hc
    as (l & o & la & oa & aps & -> & Hl & _ & _ & _ & _ & _
        & Haps & Hla & Helems & _ & Hall).
  exists aps. split; [|done]. exists la, oa.
  by rewrite (getProp_ref _ _ _ _ Hl).
Qed.

(** When the other fields are valid and the array is within the limit, the
    error names the index of the first element that is not a valid access
    point. *)
Theorem validateComputer_first_invalid_index
    (input : val) (h : heap) (good rest : list val) (bad : val) :
  computer_fields_valid h input (good ++ bad :: rest) ->
  Z.of_nat (length (good ++ bad :: rest)) <= LIMITS.MAX_ACCESS_POINTS ->
  Forall (fun ap => is_Some (validateAccessPoint ap h).1) good ->
  (validateAccessPoint bad h).1 = None ->
  validateComputer input h
  = (Invalid ("Invalid access point at index " +:+ pretty (length good)), h).
Proof.
  intros (l & o & la & oa & -> & Hl & [id Hid] & [name Hname] & [level Hlevel]
          & [type Htype] & Haps & Hla & Helems) Hlen Hgood Hbad.
  unfold validateComputer. rewrite not_an_object_ref.
  run_read. rewrite (getProp_ref _ _ _ _ Hl), Hid.
  run_read. rewrite (getProp_ref _ _ _ _ Hl), Hname.
  run_read. rewrite (getProp_ref _ _ _ _ Hl), Hlevel.
  run_read. rewrite (getProp_ref _ _ _ _ Hl), Htype.
  run_read. rewrite (getProp_ref _ _ _ _ Hl).
  run_read. rewrite (getProp_ref _ _ _ _ Hl), Haps.
  run_read. rewrite (arrayElems_ref _ _ _ Hla), Helems.
  destruct (Z.gtb_spec (Z.of_nat (length (good ++ bad :: rest)))
              LIMITS.MAX_ACCESS_POINTS); [lia|].
  rewrite bind_read_only by apply validateAccessPoints_read_only.
  by rewrite validateAccessPoints_first_invalid.
Qed.

Lemma validateComputer_well_formed_witness :
  exists c, (validateComputer (VRef 0%nat) (computer_heap 2)).1 = Valid c
            /\ well_formed_computer c.
Proof.
  eexists. split; [vm_compute; reflexivity|].
  apply (validateComputer_well_formed (VRef 0%nat) (computer_heap 2)).
  vm_compute; reflexivity.
Defined.

Lemma validateComputer_keeps_order_witness :
  exists c, (validateComputer (VRef 0%nat) (computer_heap 2)).1 = Valid c
    /\ exists aps,
         has_accessPoints (computer_heap 2) (VRef 0%nat) aps
         /\ Forall2 (fun e ap =>
              (validateAccessPoint e (computer_heap 2)).1 = Some ap)
              aps (c_accessPoints c).
Proof.
  eexists. split; [vm_compute; reflexivity|].
  apply (validateComputer_keeps_order (VRef 0%nat) (computer_heap 2)).
  vm_compute; reflexivity.
Defined.

Lemma validateComputer_first_invalid_index_witness :
  validateComputer (VRef 0%nat) broken_computer_heap
  = (Invalid ("Invalid access point at index " +:+ pretty 2%nat),
     broken_computer_heap).
Proof.
  apply (validateComputer_first_invalid_index (VRef 0%nat) broken_computer_heap
           [VRef 2%nat; VRef 2%nat] [VRef 2%nat] VNull).
  - exists 0%nat, (computer_example 1%nat), 1%nat,
           (array [ VRef 2%nat; VRef 2%nat; VNull; VRef 2%nat ]).
    split_and!;
      [ reflexivity | vm_compute; reflexivity
      | vm_compute; eexists; reflexivity | vm_compute; eexists; reflexivity
      | vm_compute; eexists; reflexivity | vm_compute; eexists; reflexivity
      | vm_compute; reflexivity | vm_compute; reflexivity | reflexivity ].
  - vm_compute. discriminate.
  - repeat (apply Forall_cons; split); [..|apply Forall_nil];
      vm_compute; eexists; reflexivity.
  - vm_compute; reflexivity.
Defined.

(** ** The smaller payload validators *)

Lemma VALID_NODE_STATES_has_name v st :
  VALID_NODE_STATES_has v = Some st <-> v = VStr (NodeState_name st).
Proof.
  split.
  - destruct v as [| | | |s|]; simpl; try done.
    repeat case_decide; try done; intros [= <-]; by subst s.
  - intros ->. by destruct st.
Qed.

(** [validateNodeStatePayload] accepts exactly the objects whose [nodeId]
    sanitizes to an id and whose [state] is literally one of [locked],
    [active], [breached], [alarmed]; it returns the sanitized id with that
    state. *)
Theorem validateNodeStatePayload_spec
    (input : val) (h : heap) (nodeId : jsstring) (st : NodeState) :
  (validateNodeStatePayload input h).1 = Valid (nodeId, st)
  <-> exists l o,
        input = VRef l /\ h !! l = Some o
        /\ sanitizeId (obj_get o (lit "nodeId")) = Some nodeId
        /\ obj_get o (lit "state") = VStr (NodeState_name st).
Proof.
  unfold validateNodeStatePayload. split.
  - destruct (not_an_object input) eqn:Hobj; [done|].
    apply not_an_object_inv in Hobj as [l ->].
    run_read. destruct (sanitizeId _) as [id|] eqn:Hid; [|done].
    run_read. destruct (VALID_NODE_STATES_has _) as [st'|] eqn:Hst; [|done].
    cbn. intros [= <- <-].
    unfold getProp in Hid, Hst. cbn [fst] in Hid, Hst.
    destruct (h !! l) as [o|] eqn:Hl; [|done].
    exists l, o. split_and!; try done. by apply VALID_NODE_STATES_has_name.
  - intros (l & o & -> & Hl & Hid & Hst). rewrite not_an_object_ref.
    run_read. rewrite (getProp_ref _ _ _ _ Hl), Hid.
    run_read. rewrite (getProp_ref _ _ _ _ Hl).
    by rewrite (proj2 (VALID_NODE_STATES_has_name _ st) Hst).
Qed.

(** [validateFocusPayload] unfocuses (returns a null [nodeId]) exactly when
    the [nodeId] property of the payload object is [null] itself; a payload
    without a [nodeId] is rejected as an invalid node id. *)
Theorem validateFocusPayload_null_and_missing
    (l : loc) (o : obj) (h : heap) :
  h !! l = Some o ->
  ((validateFocusPayload (VRef l) h).1 = Valid None
   <-> obj_get o (lit "nodeId") = VNull)
  /\ (obj_get o (lit "nodeId") = VUndef ->
      (validateFocusPayload (VRef l) h).1 = Invalid "Invalid node ID").
Proof.
  intros Hl. unfold validateFocusPayload. rewrite not_an_object_ref.
  run_read. rewrite (getProp_ref _ _ _ _ Hl). split.
  - destruct (obj_get o (lit "nodeId")) as [| | | |s|] eqn:E;
      try destruct (sanitizeId (VStr s));
      cbn [sanitizeId]; unfold mret, M_ret; cbn [fst];
      split; intros HH; done || discriminate HH.
  - by intros ->.
Qed.

Lemma validateFocusPayload_null_and_missing_witness :
  ((validateFocusPayload (VRef 0%nat) effect_heap).1 = Valid None
   <-> obj_get (object [ ("effectType", VStr (lit "<b>")) ]) (lit "nodeId") = VNull)
  /\ (obj_get (object [ ("effectType", VStr (lit "<b>")) ]) (lit "nodeId") = VUndef ->
      (validateFocusPayload (VRef 0%nat) effect_heap).1 = Invalid "Invalid node ID").
Proof.
  apply (validateFocusPayload_null_and_missing 0%nat
           (object [ ("effectType", VStr (lit "<b>")) ]) effect_heap).
  vm_compute; reflexivity.
Defined.

(** ** In-place sanitizing by [validateEffectPayload] *)

Lemma obj_get_set_ne o k k' x : k ≠ k' -> obj_get (obj_set o k x) k' = obj_get o k'.
Proof.
  intros Hne. unfold obj_get, obj_set. cbn [o_elems o_props].
  by rewrite lookup_insert_ne.
Qed.

Lemma obj_get_set_named o k x :
  k ≠ lit "length" -> array_index k = None -> obj_get (obj_set o k x) k = x.
Proof.
  intros Hlen Hidx. unfold obj_get, obj_set. cbn [o_elems o_props].
  destruct (o_elems o); [rewrite decide_False by done; rewrite Hidx|];
    by rewrite lookup_insert_eq.
Qed.

Lemma setProp_ref l k x h o :
  h !! l = Some o -> setProp (VRef l) k x h = (tt, <[l := obj_set o k x]> h).
Proof. intros Hl. unfold setProp. by rewrite Hl. Qed.

Lemma validateEffectPayload_run l h o :
  h !! l = Some o ->
  validateEffectPayload (VRef l) h
  = match sanitize_field (lit "nodeId") sanitizeId "Invalid effect nodeId" o with
    | inl e => (Invalid e, h)
    | inr o1 =>
        match sanitize_field (lit "effectType") (fun v => sanitizeString v 50)
                "Invalid effect type" o1 with
        | inl e => (Invalid e, <[l := o1]> h)
        | inr o2 => (Valid (VRef l), <[l := o2]> h)
        end
    end.
Proof.
  intros Hl. unfold validateEffectPayload. rewrite not_an_object_ref.
  cbv zeta. unfold mbind, M_bind, mret, M_ret, sanitize_field.
  rewrite !read_only_getProp, (getProp_ref _ _ _ _ Hl).
  destruct (obj_get o (lit "nodeId")) eqn:E1;
    try destruct (sanitizeId _) as [n|] eqn:Hn; try reflexivity.
  all: rewrite ?(setProp_ref _ _ _ _ _ Hl); cbn [fst snd].
  all: rewrite !read_only_getProp.
  all: first
         [ rewrite (getProp_ref _ _ _ _ Hl)
         | rewrite (getProp_ref l _ _ (obj_set o (lit "nodeId") (VStr n)))
             by apply lookup_insert_eq ].
  all: match goal with
       | |- context [obj_get ?o1 (lit "effectType")] =>
           destruct (obj_get o1 (lit "effectType")) eqn:E2
       end.
  all: try destruct (sanitizeString _ 50) as [t|] eqn:Ht.
  all: cbn [fst snd].
  all: rewrite ?(setProp_ref _ _ _ _ _ Hl).
  all: rewrite ?(setProp_ref l _ _ _ (obj_set o (lit "nodeId") (VStr n)))
         by apply lookup_insert_eq.
  all: cbn [fst snd].
  all: rewrite ?insert_insert_eq, ?(insert_id _ _ _ Hl).
  all: reflexivity.
Qed.

Lemma sanitize_field_inr k sanitize error o o' :
  sanitize_field k sanitize error o = inr o' <->
  (obj_get o k = VUndef /\ o' = o)
  \/ (obj_get o k ≠ VUndef
      /\ exists s, sanitize (obj_get o k) = Some s /\ o' = obj_set o k (VStr s)).
Proof.
  unfold sanitize_field. destruct (obj_get o k) eqn:E.
  { split; [intros [= <-]; by left | intros [[_ ->]|[? _]]; done]. }
  all: destruct (sanitize _) as [z|] eqn:Hz.
  all: split;
         [first [done | intros [= <-]; right; split; [done|]; by exists z]|].
  all: intros [[? _]|[_ (z' & Hz' & ->)]]; [done|congruence].
Qed.

(** [validateEffectPayload] accepts a payload object, array or not, exactly
    when its [nodeId] is absent or sanitizes to an id and its [effectType]
    is absent or sanitizes to a text; every other property is ignored. *)
Theorem validateEffectPayload_accepts_iff (l : loc) (o : obj) (h : heap) :
  h !! l = Some o ->
  ((validateEffectPayload (VRef l) h).1 = Valid (VRef l)
   <-> (obj_get o (lit "nodeId") = VUndef
        \/ is_Some (sanitizeId (obj_get o (lit "nodeId"))))
       /\ (obj_get o (lit "effectType") = VUndef
           \/ is_Some (sanitizeString (obj_get o (lit "effectType")) 50))).
Proof.
  intros Hl. rewrite (validateEffectPayload_run _ _ _ Hl).
  unfold sanitize_field.
  destruct (obj_get o (lit "nodeId")) eqn:E1;
    try destruct (sanitizeId _) as [n|] eqn:Hn;
    rewrite ?obj_get_set_ne by done;
    destruct (obj_get o (lit "effectType")) eqn:E2;
    try destruct (sanitizeString _ 50) as [t|] eqn:Ht;
    cbn [fst]; split;
    try (intros _; split; (by left) || (by right; eexists));
    try done;
    intros [[?|[? ?]] [?|[? ?]]]; done.
Qed.

Lemma validateEffectPayload_accepts_iff_witness :
  (validateEffectPayload (VRef 0%nat) effect_heap).1 = Valid (VRef 0%nat).
Proof.
  apply (validateEffectPayload_accepts_iff 0%nat
           (object [ ("effectType", VStr (lit "<b>")) ]) effect_heap).
  - vm_compute; reflexivity.
  - split; [left; vm_compute; reflexivity|right; vm_compute; eexists; reflexivity].
Defined.

(** A rejection can come after a write: when the [nodeId] sanitizes and the
    [effectType] does not, [validateEffectPayload] returns the error of the
    effect type and the payload object keeps the sanitized [nodeId] that
    was already written into it. *)
Theorem validateEffectPayload_rejects_after_write
    (l : loc) (o : obj) (h : heap) (n : jsstring) :
  h !! l = Some o ->
  obj_get o (lit "nodeId") ≠ VUndef ->
  sanitizeId (obj_get o (lit "nodeId")) = Some n ->
  obj_get o (lit "effectType") ≠ VUndef ->
  sanitizeString (obj_get o (lit "effectType")) 50 = None ->
  validateEffectPayload (VRef l) h
  = (Invalid "Invalid effect type", <[l := obj_set o (lit "nodeId") (VStr n)]> h)
  /\ (getProp (VRef l) (lit "nodeId") (validateEffectPayload (VRef l) h).2).1
     = VStr n.
Proof.
  intros Hl Hnode Hn Htype Hbad.
  assert (validateEffectPayload (VRef l) h
          = (Invalid "Invalid effect type",
             <[l := obj_set o (lit "nodeId") (VStr n)]> h)) as Hrun.
  { rewrite (validateEffectPayload_run _ _ _ Hl). unfold sanitize_field.
    destruct (obj_get o (lit "nodeId")) eqn:E1; [done|..];
      rewrite Hn; rewrite obj_get_set_ne by done;
      destruct (obj_get o (lit "effectType")) eqn:E2; try done;
      by rewrite Hbad. }
  split; [done|]. rewrite Hrun. cbn [snd].
  rewrite (getProp_ref l _ _ (obj_set o (lit "nodeId") (VStr n)))
    by apply lookup_insert_eq.
  by rewrite obj_get_set_named.
Qed.

Lemma validateEffectPayload_rejects_after_write_witness :
  validateEffectPayload (VRef 0%nat) half_valid_effect_heap
  = (Invalid "Invalid effect type",
     <[0%nat := obj_set (object [ ("nodeId", VStr (lit " ap-1 "));
                                  ("effectType", VStr (lit "   ")) ])
                  (lit "nodeId") (VStr (lit "ap-1"))]> half_valid_effect_heap)
  /\ (getProp (VRef 0%nat) (lit "nodeId")
        (validateEffectPayload (VRef 0%nat) half_valid_effect_heap).2).1
     = VStr (lit "ap-1").
Proof.
  apply (validateEffectPayload_rejects_after_write 0%nat
           (object [ ("nodeId", VStr (lit " ap-1 "));
                     ("effectType", VStr (lit "   ")) ])
           half_valid_effect_heap (lit "ap-1")).
  - vm_compute; reflexivity.
  - by vm_compute.
  - vm_compute; reflexivity.
  - by vm_compute.
  - vm_compute; reflexivity.
Defined.

(** After a successful [validateEffectPayload] the payload object holds
    only sanitized values in the two fields it knows: its [nodeId] is absent
    or a well-formed id, its [effectType] absent or a text of at most 50
    characters without raw markup characters. *)
Theorem validateEffectPayload_sanitized_fields
    (l : loc) (o : obj) (h h' : heap) (v : val) :
  h !! l = Some o ->
  validateEffectPayload (VRef l) h = (Valid v, h') ->
  exists o',
    h' !! l = Some o'
    /\ (obj_get o' (lit "nodeId") = VUndef
        \/ exists n, obj_get o' (lit "nodeId") = VStr n /\ well_formed_id n)
    /\ (obj_get o' (lit "effectType") = VUndef
        \/ exists t, obj_get o' (lit "effectType") = VStr t
                     /\ well_formed_text 50 t).
Proof.
  intros Hl. rewrite (validateEffectPayload_run _ _ _ Hl).
  destruct (sanitize_field (lit "nodeId") _ _ o) as [e|o1] eqn:H1; [done|].
  destruct (sanitize_field (lit "effectType") _ _ o1) as [e|o2] eqn:H2; [done|].
  intros [= _ <-]. exists o2. rewrite lookup_insert_eq. split; [done|].
  apply sanitize_field_inr in H1, H2.
  assert (obj_get o1 (lit "nodeId") = VUndef
          \/ exists n, obj_get o1 (lit "nodeId") = VStr n /\ well_formed_id n)
    as Hnode.
  { destruct H1 as [[? ->]|[_ (n & Hn & ->)]]; [by left|right].
    exists n. rewrite obj_get_set_named by done.
    split; [done|]. by eapply sanitizeId_well_formed. }
  destruct H2 as [[? ->]|[_ (t & Ht & ->)]].
  - split; [done|by left].
  - rewrite obj_get_set_ne by done. split; [done|]. right.
    exists t. rewrite obj_get_set_named by done.
    split; [done|]. by eapply sanitizeString_well_formed.
Qed.

Lemma validateEffectPayload_sanitized_fields_witness :
  exists o',
    (validateEffectPayload (VRef 0%nat) effect_heap).2 !! 0%nat = Some o'
    /\ (obj_get o' (lit "nodeId") = VUndef
        \/ exists n, obj_get o' (lit "nodeId") = VStr n /\ well_formed_id n)
    /\ (obj_get o' (lit "effectType") = VUndef
        \/ exists t, obj_get o' (lit "effectType") = VStr t
                     /\ well_formed_text 50 t).
Proof.
  apply (validateEffectPayload_sanitized_fields 0%nat
           (object [ ("effectType", VStr (lit "<b>")) ]) effect_heap _ (VRef 0%nat)).
  - vm_compute; reflexivity.
  - vm_compute; reflexivity.
Defined.

(** ** Routing and forwarding in [fetch] *)

Lemma strip_prefix_spec p s r : Worker.strip_prefix p s = Some r <-> s = p ++ r.
Proof.
  revert s. induction p as [|a p IH]; intros s; simpl.
  - split; [by intros [= ->] | by intros ->].
  - destruct s as [|b s]; [done|].
    destruct (N.eqb_spec a b) as [->|Hne].
    + rewrite IH. split; [by intros -> | by intros [= ->]].
    + split; [done | intros [= ? _]; done].
Qed.

Lemma take_while_spec f s :
  exists rest, s = Worker.take_while f s ++ rest
               /\ Forall (fun c => f c = true) (Worker.take_while f s)
               /\ (forall c, head rest = Some c -> f c = false).
Proof.
  induction s as [|c s (rest & Hs & Hall & Hhead)]; simpl.
  - exists []. by split_and!.
  - destruct (f c) eqn:Hc.
    + exists rest. split_and!; [simpl; f_equal; exact Hs | by constructor | done].
    + exists (c :: s). split_and!; [done | done | by intros ? [= <-]].
Qed.

Lemma take_while_prefix f sid rest :
  Forall (fun c => f c = true) sid ->
  (forall c, head rest = Some c -> f c = false) ->
  Worker.take_while f (sid ++ rest) = sid.
Proof.
  intros Hall Hhead. induction Hall as [|c sid Hc _ IH]; simpl.
  - destruct rest as [|c rest]; [done|]. simpl. by rewrite (Hhead c).
  - by rewrite Hc, IH.
Qed.

(** The route [/^\/ws\/([a-zA-Z0-9-]+)/] matches exactly the paths that
    start with [/ws/] followed by at least one character of
    [[a-zA-Z0-9-]]; the session id is the longest run of such characters,
    and whatever follows it in the path plays no part in the routing. *)
Theorem wsMatch_spec (path sessionId : jsstring) :
  Worker.wsMatch path = Some sessionId
  <-> exists rest,
        path = lit "/ws/" ++ sessionId ++ rest
        /\ sessionId ≠ []
        /\ Forall (fun c => Worker.is_session_char c = true) sessionId
        /\ (forall c, head rest = Some c -> Worker.is_session_char c = false).
Proof.
  unfold Worker.wsMatch. split.
  - destruct (Worker.strip_prefix (lit "/ws/") path) as [r|] eqn:Hp; [|done].
    apply strip_prefix_spec in Hp as ->.
    destruct (take_while_spec Worker.is_session_char r) as (rest & Hr & Hall & Hhead).
    destruct (Worker.take_while Worker.is_session_char r) as [|c sid] eqn:E; [done|].
    intros [= <-]. exists rest. split_and!; try done. f_equal. exact Hr.
  - intros (rest & -> & Hne & Hall & Hhead).
    rewrite (proj2 (strip_prefix_spec _ _ (sessionId ++ rest)) eq_refl).
    rewrite take_while_prefix by done. by destruct sessionId.
Qed.

Lemma searchParams_set_others ps name value :
  filter (fun p => p.1 ≠ name) (Worker.searchParams_set ps name value)
  = filter (fun p => p.1 ≠ name) ps.
Proof.
  induction ps as [|[k v] r IH]; simpl.
  - rewrite filter_cons_False; [done|]. simpl. tauto.
  - destruct (decide (k = name)) as [->|Hne].
    + rewrite !filter_cons_False by (simpl; tauto).
      apply list_filter_filter_l. tauto.
    + rewrite !filter_cons_True by done. by rewrite IH.
Qed.

(** [fetch] hands a request to the Durable Object of the room [sessionId]
    exactly when the request is not a preflight, its path matches the room
    route with that id and, if it asks for [gm], the secret check passes;
    every other request is answered by the worker itself. *)
Theorem fetch_forwards_iff (now : jsstring) (request : Worker.Request)
    (env : Worker.Env) (sessionId : jsstring) :
  (exists doRequest, Worker.fetch now request env
                     = Worker.StubFetch sessionId doRequest)
  <-> admission_request request sessionId
      /\ (requests_gm request -> secret_check_passes request env).
Proof.
  unfold secret_check_passes. split.
  - intros [doRequest Hfetch].
    assert (admission_request request sessionId) as Hadm.
    { unfold Worker.fetch in Hfetch. unfold admission_request.
      destruct (decide (Worker.method request = lit "OPTIONS")); [done|].
      destruct (Worker.wsMatch (Worker.pathname request)) as [sid|] eqn:Hm.
      - split; [done|]. by repeat case_match; simplify_eq.
      - by repeat case_match. }
    split; [done|]. intros Hgm Hconf.
    rewrite (fetch_admission _ _ _ _ Hadm) in Hfetch.
    rewrite decide_True, Hconf in Hfetch by done. cbn [andb] in Hfetch.
    by case_bool_decide.
  - intros [Hadm Hcheck]. rewrite (fetch_admission _ _ _ _ Hadm).
    destruct (decide (requests_gm request)) as [Hgm|Hgm]; [|by eexists].
    destruct (Worker.configured (Worker.GM_SECRET env)) eqn:Hconf;
      cbn [andb]; [|by eexists].
    rewrite bool_decide_eq_true_2 by by apply Hcheck. by eexists.
Qed.

(** The request handed to the Durable Object is the original one with its
    [role] parameter replaced: method, origin, path and headers are kept,
    and so are all the other query parameters, in their order. *)
Theorem fetch_forwards_request_unchanged (now : jsstring)
    (request doRequest : Worker.Request) (env : Worker.Env) (sessionId : jsstring) :
  Worker.fetch now request env = Worker.StubFetch sessionId doRequest ->
  Worker.method doRequest = Worker.method request
  /\ Worker.origin doRequest = Worker.origin request
  /\ Worker.pathname doRequest = Worker.pathname request
  /\ Worker.headers doRequest = Worker.headers request
  /\ filter (fun p => p.1 ≠ lit "role") (Worker.searchParams doRequest)
     = filter (fun p => p.1 ≠ lit "role") (Worker.searchParams request).
Proof.
  unfold Worker.fetch.
  destruct (decide (Worker.method request = lit "OPTIONS")); [done|].
  destruct (Worker.wsMatch (Worker.pathname request)) as [sid|];
    [|by repeat case_match].
  repeat case_match; try done; intros [= _ <-]; cbn;
    by rewrite searchParams_set_others.
Qed.

Lemma fetch_forwards_request_unchanged_witness :
  exists doRequest,
    Worker.fetch [] admin_request open_env
    = Worker.StubFetch (lit "room-1") doRequest
    /\ Worker.method doRequest = Worker.method admin_request
    /\ Worker.origin doRequest = Worker.origin admin_request
    /\ Worker.pathname doRequest = Worker.pathname admin_request
    /\ Worker.headers doRequest = Worker.headers admin_request
    /\ filter (fun p => p.1 ≠ lit "role") (Worker.searchParams doRequest)
       = filter (fun p => p.1 ≠ lit "role") (Worker.searchParams admin_request).
Proof.
  eexists. split; [vm_compute; reflexivity|].
  apply (fetch_forwards_request_unchanged [] admin_request _ open_env (lit "room-1")).
  vm_compute; reflexivity.
Defined.

(** A non-empty [X-GM-Secret] header decides alone: when it differs from the
    configured secret the request for [gm] is answered 401, whatever the
    [secret] query parameter holds, the right secret included. *)
Theorem header_secret_takes_precedence (now : jsstring)
    (request : Worker.Request) (env : Worker.Env)
    (sessionId headerValue : jsstring) :
  admission_request request sessionId ->
  requests_gm request ->
  Worker.configured (Worker.GM_SECRET env) = true ->
  Worker.headers_get (Worker.headers request) (lit "X-GM-Secret")
  = Some headerValue ->
  headerValue ≠ [] ->
  Some headerValue ≠ Worker.GM_SECRET env ->
  Worker.fetch now request env
  = Worker.Respond (Worker.unauthorized (Worker.getCorsHeaders request env)).
Proof.
  intros Hadm Hgm Hconf Hheader Hne Hdiff.
  rewrite (fetch_admission _ _ _ _ Hadm).
  rewrite decide_True, Hconf by done. cbn [andb].
  unfold Worker.providedSecret. rewrite Hheader.
  destruct headerValue as [|c r]; [done|]. cbn [Worker.or_else].
  by rewrite bool_decide_eq_false_2.
Qed.

Lemma header_secret_takes_precedence_witness :
  Worker.searchParams_get (Worker.searchParams two_secrets_request) (lit "secret")
  = Worker.GM_SECRET secret_env
  /\ Worker.fetch [] two_secrets_request secret_env
     = Worker.Respond
         (Worker.unauthorized (Worker.getCorsHeaders two_secrets_request secret_env)).
Proof.
  split; [vm_compute; reflexivity|].
  apply (header_secret_takes_precedence [] two_secrets_request secret_env
           (lit "room-1") (lit "guess")).
  - split; [by vm_compute | vm_compute; reflexivity].
  - vm_compute; reflexivity.
  - reflexivity.
  - vm_compute; reflexivity.
  - by vm_compute.
  - by vm_compute.
Defined.

Lemma split_nonempty c s : Worker.split c s ≠ [].
Proof.
  destruct s as [|d r]; simpl; [done|].
  destruct (N.eqb d c); [done|]. by destruct (Worker.split c r).
Qed.

(** Without a configured allow-list every response allows the origin [*];
    with one, the list has a first entry and the allowed origin sent back
    is the origin of the request (its [Origin] header, or [*] without one)
    when the list holds it, and the first entry of the list otherwise: in
    every case an entry of the list. *)
Theorem cors_allow_origin (request : Worker.Request) (env : Worker.Env) :
  (Worker.configured (Worker.ALLOWED_ORIGINS env) = false ->
   allow_origin (Worker.getCorsHeaders request env) = Some (lit "*"))
  /\ (Worker.configured (Worker.ALLOWED_ORIGINS env) = true ->
      exists first rest,
        allowed_origins env = first :: rest
        /\ (requested_origin request ∈ allowed_origins env ->
            allow_origin (Worker.getCorsHeaders request env)
            = Some (requested_origin request))
        /\ (requested_origin request ∉ allowed_origins env ->
            allow_origin (Worker.getCorsHeaders request env) = Some first)
        /\ (exists v, allow_origin (Worker.getCorsHeaders request env) = Some v
                      /\ v ∈ allowed_origins env)).
Proof.
  unfold allow_origin, Worker.getCorsHeaders. fold (allowed_origins env).
  assert (Horigin :
    default (lit "*")
      (Worker.or_else (Worker.headers_get (Worker.headers request) (lit "Origin"))
                      (Some (lit "*")))
    = requested_origin request).
  { unfold requested_origin.
    by destruct (Worker.headers_get _ _) as [[|c r]|]. }
  rewrite Horigin. clear Horigin.
  split.
  - intros ->. cbn [negb Worker.searchParams_get]. by rewrite decide_True.
  - intros ->. cbn [negb Worker.searchParams_get]. rewrite decide_True by done.
    destruct (allowed_origins env) as [|first rest] eqn:E.
    { unfold allowed_origins in E. apply fmap_nil_inv in E.
      by apply split_nonempty in E. }
    exists first, rest. split; [done|]. cbn [head default].
    split_and!.
    + intros Hin. by rewrite bool_decide_eq_true_2.
    + intros Hout. by rewrite bool_decide_eq_false_2.
    + eexists. split; [reflexivity|].
      case_bool_decide as Hin; [done | by left].
Qed.

Lemma cors_allow_origin_witness :
  allow_origin (Worker.getCorsHeaders admin_request open_env) = Some (lit "*")
  /\ allow_origin (Worker.getCorsHeaders (origin_request "https://b.example") cors_env)
     = Some (lit "https://b.example")
  /\ allow_origin (Worker.getCorsHeaders (origin_request "https://c.example") cors_env)
     = Some (lit "https://a.example")
  /\ allow_origin (Worker.getCorsHeaders admin_request cors_env)
     = Some (lit "https://a.example").
Proof.
  split_and!.
  - apply (proj1 (cors_allow_origin admin_request open_env)). reflexivity.
  - destruct (proj2 (cors_allow_origin (origin_request "https://b.example") cors_env)
                eq_refl) as (first & rest & _ & Hlisted & _).
    apply Hlisted. apply (bool_decide_unpack _). vm_compute. exact I.
  - destruct (proj2 (cors_allow_origin (origin_request "https://c.example") cors_env)
                eq_refl) as (first & rest & [= <- _] & _ & Hother & _).
    apply Hother. apply (bool_decide_unpack _). vm_compute. exact I.
  - destruct (proj2 (cors_allow_origin admin_request cors_env) eq_refl)
      as (first & rest & [= <- _] & _ & Hother & _).
    apply Hother. apply (bool_decide_unpack _). vm_compute. exact I.
Defined.

(** ** The client store *)

Lemma num_lt_Fin_true (p q : Q) : num_lt (Fin p) (Fin q) = true <-> (p < q)%Q.
Proof.
  simpl. rewrite Qlt_alt. destruct (Qcompare p q); split; congruence.
Qed.

Lemma clamp_Fin (q : Q) :
  exists r,
    Store.Math_max (num_of_Z 0) (Store.Math_min (num_of_Z 1) (Fin q)) = Fin r
    /\ (0 <= r)%Q /\ (r <= 1)%Q
    /\ ((0 <= q)%Q -> (q <= 1)%Q -> (r == q)%Q).
Proof.
  unfold Store.Math_min, Store.Math_max, num_of_Z.
  change (inject_Z 0) with 0%Q. change (inject_Z 1) with 1%Q.
  destruct (num_lt (Fin q) (Fin 1)) eqn:E1.
  - apply num_lt_Fin_true in E1.
    destruct (num_lt (Fin 0) (Fin q)) eqn:E0.
    + apply num_lt_Fin_true in E0. exists q.
      split_and!; [done | by apply Qlt_le_weak | by apply Qlt_le_weak | done].
    + apply num_lt_Fin_false in E0. exists 0%Q.
      split_and!; [done | apply Qle_refl | done |].
      intros Hq _. by apply Qle_antisym.
  - apply num_lt_Fin_false in E1. exists 1%Q.
    split_and!; [done | done | apply Qle_refl |].
    intros _ Hq. by apply Qle_antisym.
Qed.

Lemma clamp_low (q : Q) :
  (q <= 0)%Q ->
  Store.Math_max (num_of_Z 0) (Store.Math_min (num_of_Z 1) (Fin q)) = num_of_Z 0.
Proof.
  intros Hq. unfold Store.Math_min, Store.Math_max, num_of_Z.
  change (inject_Z 0) with 0%Q. change (inject_Z 1) with 1%Q.
  assert (E1 : num_lt (Fin q) (Fin 1) = true).
  { apply num_lt_Fin_true. by apply Qle_lt_trans with 0%Q. }
  rewrite E1.
  assert (E0 : num_lt (Fin 0) (Fin q) = false) by (by apply num_lt_Fin_false).
  by rewrite E0.
Qed.

Lemma clamp_high (q : Q) :
  (1 <= q)%Q ->
  Store.Math_max (num_of_Z 0) (Store.Math_min (num_of_Z 1) (Fin q)) = num_of_Z 1.
Proof.
  intros Hq. unfold Store.Math_min, Store.Math_max, num_of_Z.
  change (inject_Z 0) with 0%Q. change (inject_Z 1) with 1%Q.
  assert (E1 : num_lt (Fin q) (Fin 1) = false) by (by apply num_lt_Fin_false).
  by rewrite E1.
Qed.

(** [setAmbientIntensity] stores and broadcasts one and the same value: the
    given number when it lies between 0 and 1, the nearer bound when it
    does not (0 for a number below 0 and for minus infinity, 1 for a number
    above 1 and for plus infinity), so a number between 0 and 1 in every
    case but one: [NaN] is stored and broadcast as it is. *)
Theorem setAmbientIntensity_clamps (channel : bool) (value : num)
    (st : Store.VisualizationState) :
  let st' := (Store.setAmbientIntensity channel value st).1 in
  (Store.setAmbientIntensity channel value st).2
  = Store.broadcast channel (Store.MsgIntensity (Store.ambientIntensity st'))
  /\ (value ≠ NaN -> in_range 0 1 (Store.ambientIntensity st'))
  /\ (in_range 0 1 value -> same_number (Store.ambientIntensity st') value)
  /\ (num_lt value (num_of_Z 0) = true ->
      Store.ambientIntensity st' = num_of_Z 0)
  /\ (num_lt (num_of_Z 1) value = true ->
      Store.ambientIntensity st' = num_of_Z 1)
  /\ (value = NaN -> Store.ambientIntensity st' = NaN).
Proof.
  cbn [Store.setAmbientIntensity fst snd Store.ambientIntensity
       Store.with_intensity].
  split; [done|].
  destruct value as [q| | |].
  - split_and!; [| | | |done].
    + intros _. destruct (clamp_Fin q) as (r & -> & Hlo & Hhi & Hsame).
      by exists r.
    + intros (q' & [= <-] & ? & ?).
      destruct (clamp_Fin q) as (r & -> & Hlo & Hhi & Hsame). by apply Hsame.
    + intros Hq. apply num_lt_Fin_true in Hq.
      apply clamp_low. by apply Qlt_le_weak.
    + intros Hq. apply num_lt_Fin_true in Hq.
      apply clamp_high. by apply Qlt_le_weak.
  - split_and!; first [done | by intros (? & ? & _)].
  - split_and!; [|by intros (? & ? & _)|done|done|done].
    intros _. exists 1%Q. split; [done|]. split; [done|apply Qle_refl].
  - split_and!; [|by intros (? & ? & _)|done|done|done].
    intros _. exists 0%Q. split; [done|]. split; [apply Qle_refl|done].
Qed.

Lemma assignNodeState_spec nodeId s c :
  (Forall (fun ap => ap_id ap ≠ nodeId) (c_accessPoints c)
   /\ Store.assignNodeState nodeId s c = None)
  \/ exists i node,
       c_accessPoints c !! i = Some node /\ ap_id node = nodeId
       /\ (forall j n, c_accessPoints c !! j = Some n -> (j < i)%nat ->
                       ap_id n ≠ nodeId)
       /\ Store.assignNodeState nodeId s c
          = Some (mkComputer (c_id c) (c_name c) (c_level c) (c_type c)
                    (c_description c)
                    (<[i := node_with_state node s]> (c_accessPoints c))).
Proof.
  unfold Store.assignNodeState.
  destruct (list_find _ (c_accessPoints c)) as [[i node]|] eqn:E.
  - right. apply list_find_Some in E as (Hi & Hid & Hbefore).
    exists i, node. by split_and!.
  - left. split; [|done]. by apply list_find_None in E.
Qed.

(** [setNodeState] changes the state of one access point at most, the first
    one of the list that has the given id, and nothing else of the state;
    access points further down with the same id keep their state. Without a
    computer, or without an access point of that id, the state is left as it
    is and nothing is posted or saved. *)
Theorem setNodeState_first_match (channel : bool) (nodeId : jsstring)
    (s : NodeState) (st : Store.VisualizationState) :
  (Store.computer st = None ->
   Store.setNodeState channel nodeId s st = (st, []))
  /\ (forall c, Store.computer st = Some c ->
        (Forall (fun ap => ap_id ap ≠ nodeId) (c_accessPoints c)
         /\ Store.setNodeState channel nodeId s st = (st, []))
        \/ exists i node c',
             c_accessPoints c !! i = Some node /\ ap_id node = nodeId
             /\ (forall j n, c_accessPoints c !! j = Some n -> (j < i)%nat ->
                             ap_id n ≠ nodeId)
             /\ c' = mkComputer (c_id c) (c_name c) (c_level c) (c_type c)
                       (c_description c)
                       (<[i := node_with_state node s]> (c_accessPoints c))
             /\ Store.setNodeState channel nodeId s st
                = (Store.with_computer st (Some c'),
                   Store.broadcast channel (Store.MsgNodeState nodeId s)
                   ++ [Store.SavedState c' (Store.ambientIntensity st)])).
Proof.
  unfold Store.setNodeState. split.
  - by intros ->.
  - intros c ->.
    destruct (assignNodeState_spec nodeId s c)
      as [[Hall ->]|(i & node & Hi & Hid & Hbefore & ->)]; [by left|right].
    exists i, node. eexists. by split_and!.
Qed.

Lemma setNodeState_first_match_witness :
  exists c',
    Store.setNodeState true (lit "ap-2") breached (store_example (Some two_node_computer))
    = (Store.with_computer (store_example (Some two_node_computer)) (Some c'),
       [ Store.Posted (Store.MsgNodeState (lit "ap-2") breached);
         Store.SavedState c' (Fin (7 # 10)) ])
    /\ map ap_state (c_accessPoints c') = [locked; breached; locked].
Proof.
  destruct (proj2 (setNodeState_first_match true (lit "ap-2") breached
                     (store_example (Some two_node_computer)))
              two_node_computer eq_refl)
    as [[Hnone _]|(i & node & c' & Hi & Hid & Hbefore & -> & Hrun)].
  - exfalso. apply Forall_cons in Hnone as [_ Hnone].
    apply Forall_cons in Hnone as [Hnone _]. by apply Hnone.
  - eexists. split; [vm_compute; reflexivity|]. vm_compute; reflexivity.
Defined.

(** A tab that handles the messages a store action posts ends up showing
    what the acting tab shows: for [loadComputer], [setNodeState],
    [setFocus], [setAmbientIntensity], [clearEffects] and [triggerEffect]
    with an open channel, two tabs that agreed on computer, effects, focus
    and intensity before the action agree on them after it. *)
Theorem store_actions_replicate (a b : Store.VisualizationState)
    (c : Computer) (nodeId : jsstring) (s : NodeState)
    (focus target : option jsstring) (value : num)
    (uuid : jsstring) (now : Z) (type : Store.EffectType) :
  in_sync a b ->
  in_sync (Store.loadComputer true c a).1
          (deliver (Store.loadComputer true c a).2 b)
  /\ in_sync (Store.setNodeState true nodeId s a).1
             (deliver (Store.setNodeState true nodeId s a).2 b)
  /\ in_sync (Store.setFocus true focus a).1
             (deliver (Store.setFocus true focus a).2 b)
  /\ in_sync (Store.setAmbientIntensity true value a).1
             (deliver (Store.setAmbientIntensity true value a).2 b)
  /\ in_sync (Store.clearEffects true a).1
             (deliver (Store.clearEffects true a).2 b)
  /\ in_sync (Store.triggerEffect true uuid now type target a).1
             (deliver (Store.triggerEffect true uuid now type target a).2 b).
Proof.
  intros (Hc & He & Hf & Hi). split_and!.
  - by split_and!.
  - unfold Store.setNodeState.
    destruct (Store.computer a) as [ca|] eqn:Ha;
      [|cbn; unfold in_sync; split_and!; congruence].
    destruct (Store.assignNodeState nodeId s ca) as [c'|] eqn:Hassign;
      [|cbn; unfold in_sync; split_and!; congruence].
    unfold in_sync. cbn. by rewrite <- Hc, Hassign.
  - by split_and!.
  - by split_and!.
  - by split_and!.
  - unfold in_sync. cbn. by rewrite He, Hf.
Qed.

Lemma store_actions_replicate_witness :
  in_sync
    (Store.setNodeState true (lit "ap-1") alarmed
       (store_example (Some two_node_computer))).1
    (deliver
       (Store.setNodeState true (lit "ap-1") alarmed
          (store_example (Some two_node_computer))).2
       (Store.mkState (Some two_node_computer) [] None (Fin (7 # 10)) true [])).
Proof.
  apply (store_actions_replicate (store_example (Some two_node_computer))
           (Store.mkState (Some two_node_computer) [] None (Fin (7 # 10)) true [])
           two_node_computer (lit "ap-1") alarmed None None NaN [] 0 Store.pulse).
  by split_and!.
Defined.

(** The timer of an effect removes that effect and no other: when the id is
    fresh, [triggerEffect] followed by its timeout callback leaves the list
    of active effects as it was, and the timer is scheduled for the duration
    of the effect's type. A callback whose effect is gone (after
    [clearEffects]) changes nothing. *)
Theorem effect_expires (channel : bool) (uuid : jsstring) (now : Z)
    (type : Store.EffectType) (target : option jsstring)
    (st : Store.VisualizationState) :
  uuid ∉ map Store.e_id (Store.activeEffects st) ->
  Store.effectTimeout uuid (Store.triggerEffect channel uuid now type target st).1
  = st
  /\ last (Store.triggerEffect channel uuid now type target st).2
     = Some (Store.Timeout uuid (Store.EFFECT_DURATIONS type))
  /\ Store.effectTimeout uuid
       (Store.clearEffects channel
          (Store.triggerEffect channel uuid now type target st).1).1
     = (Store.clearEffects channel st).1.
Proof.
  intros Hfresh. split_and!.
  - unfold Store.effectTimeout, Store.triggerEffect. cbn [fst Store.activeEffects Store.with_effects].
    set (effect := Store.createEffect uuid now type _).
    assert (list_find (fun e => Store.e_id e = uuid) (Store.activeEffects st ++ [effect])
            = Some (length (Store.activeEffects st), effect)) as ->.
    { apply list_find_Some. split_and!.
      - by rewrite lookup_app_r, Nat.sub_diag.
      - done.
      - intros j e Hj Hlt Hid. apply Hfresh.
        rewrite lookup_app_l in Hj by done.
        apply list_elem_of_lookup_2 in Hj. rewrite <- Hid.
        by apply (list_elem_of_fmap_2 Store.e_id). }
    rewrite delete_take_drop, take_app_length.
    rewrite drop_ge by (rewrite length_app; simpl; lia).
    rewrite app_nil_r. by destruct st.
  - unfold Store.triggerEffect. cbn [snd]. by rewrite last_snoc.
  - done.
Qed.

Lemma effect_expires_witness :
  Store.effectTimeout (lit "e-1")
    (Store.triggerEffect true (lit "e-1") 0 Store.scan None (store_example None)).1
  = store_example None.
Proof.
  apply (effect_expires true (lit "e-1") 0 Store.scan None (store_example None)).
  cbn. by intros ?%elem_of_nil.
Defined.

(** ** White space around a text or an id *)

Lemma trimStart_app_whitespace w s :
  Forall (fun c => is_whitespace c = true) w -> trimStart (w ++ s) = trimStart s.
Proof. induction 1 as [|c w Hc _ IH]; simpl; [done|]. by rewrite Hc. Qed.

Lemma trimStart_app s t :
  trimStart (s ++ t)
  = if forallb is_whitespace s then trimStart t else trimStart s ++ t.
Proof.
  induction s as [|c s IH]; simpl; [done|].
  destruct (is_whitespace c); [done|]. done.
Qed.

Lemma trimEnd_app_whitespace s w :
  Forall (fun c => is_whitespace c = true) w -> trimEnd (s ++ w) = trimEnd s.
Proof.
  intros Hw. unfold trimEnd. rewrite reverse_app.
  rewrite trimStart_app_whitespace; [done|]. by apply Forall_reverse.
Qed.

Lemma trim_padding w s w' :
  Forall (fun c => is_whitespace c = true) w ->
  Forall (fun c => is_whitespace c = true) w' ->
  trim (w ++ s ++ w') = trim s.
Proof.
  intros Hw Hw'. unfold trim.
  rewrite trimStart_app_whitespace by done. rewrite trimStart_app.
  destruct (forallb is_whitespace s) eqn:E.
  - rewrite (trimStart_whitespace w') by done.
    rewrite (trimStart_whitespace s); [done|].
    apply Forall_forall. intros c Hc.
    rewrite forallb_forall in E. apply E. by apply list_elem_of_In.
  - by apply trimEnd_app_whitespace.
Qed.

(** White space before and after an id does not count: [sanitizeId] gives
    the same answer for the padded and for the bare string. *)
Theorem sanitizeId_ignores_padding (w s w' : jsstring) :
  Forall (fun c => is_whitespace c = true) w ->
  Forall (fun c => is_whitespace c = true) w' ->
  sanitizeId (VStr (w ++ s ++ w')) = sanitizeId (VStr s).
Proof. intros Hw Hw'. unfold sanitizeId. by rewrite trim_padding. Qed.

Lemma sanitizeId_ignores_padding_witness :
  sanitizeId (VStr ([32; 9]%N ++ lit "node-1" ++ [10; 32]%N))
  = sanitizeId (VStr (lit "node-1")).
Proof.
  apply sanitizeId_ignores_padding;
    apply Forall_forall; intros c Hc; elem_cases Hc; by subst c.
Defined.

Lemma replaceAll_app c rep s t :
  replaceAll c rep (s ++ t) = replaceAll c rep s ++ replaceAll c rep t.
Proof. unfold replaceAll. apply flat_map_app. Qed.

Lemma stripped_and_escaped_app s t :
  stripped_and_escaped (s ++ t) = stripped_and_escaped s ++ stripped_and_escaped t.
Proof.
  unfold stripped_and_escaped.
  by rewrite (list.filter_app (fun c => is_stripped_control c = false)),
    !replaceAll_app.
Qed.

Lemma stripped_and_escaped_whitespace w :
  Forall (fun c => is_whitespace c = true) w ->
  Forall (fun c => is_whitespace c = true) (stripped_and_escaped w).
Proof.
  intros Hw. unfold stripped_and_escaped.
  set (kept := filter (fun c => is_stripped_control c = false) w).
  assert (Forall (fun c => is_whitespace c = true) kept) as Hkept.
  { apply Forall_forall. intros c Hc.
    apply list_elem_of_filter in Hc as [_ Hc].
    rewrite Forall_forall in Hw. by apply Hw. }
  assert (forall c, is_whitespace c = false -> c ∉ kept) as Habsent.
  { intros c Hc Hin. rewrite Forall_forall in Hkept. apply Hkept in Hin. congruence. }
  by rewrite (replaceAll_absent 38%N), (replaceAll_absent 60%N),
    (replaceAll_absent 62%N), (replaceAll_absent 34%N), (replaceAll_absent 39%N)
    by (by apply Habsent).
Qed.

(** White space before and after a text does not count either:
    [sanitizeString] gives the same answer for the padded text and for the
    bare one. *)
Theorem sanitizeString_ignores_padding (w s w' : jsstring) (maxLength : Z) :
  Forall (fun c => is_whitespace c = true) w ->
  Forall (fun c => is_whitespace c = true) w' ->
  sanitizeString (VStr (w ++ s ++ w')) maxLength = sanitizeString (VStr s) maxLength.
Proof.
  intros Hw Hw'. unfold sanitizeString. cbv zeta.
  fold (stripped_and_escaped (w ++ s ++ w')). fold (stripped_and_escaped s).
  rewrite !stripped_and_escaped_app.
  by rewrite trim_padding by by apply stripped_and_escaped_whitespace.
Qed.

Lemma sanitizeString_ignores_padding_witness :
  sanitizeString (VStr ([10; 9]%N ++ lit "hello" ++ [9; 10]%N)) 500
  = sanitizeString (VStr (lit "hello")) 500.
Proof.
  apply sanitizeString_ignores_padding;
    apply Forall_forall; intros c Hc; elem_cases Hc; by subst c.
Defined.

(** The health probe tells the truth about the gm secret: it reports
    [gmAuthEnabled] as true exactly when a request for [gm] that supplies no
    secret is answered 401. *)
Theorem health_reports_enforcement (now : jsstring)
    (probe request : Worker.Request) (env : Worker.Env) (sessionId : jsstring) :
  Worker.method probe ≠ lit "OPTIONS" ->
  Worker.pathname probe = lit "/health" \/ Worker.pathname probe = lit "/api/health" ->
  admission_request request sessionId ->
  requests_gm request ->
  Worker.providedSecret request = None ->
  (reports_gm_auth (Worker.fetch now probe env) = Some (VBool true)
   <-> Worker.fetch now request env
       = Worker.Respond (Worker.unauthorized (Worker.getCorsHeaders request env)))
  /\ (reports_gm_auth (Worker.fetch now probe env) = Some (VBool false)
      <-> exists doRequest,
            Worker.fetch now request env = Worker.StubFetch sessionId doRequest).
Proof.
  intros Hmethod Hpath Hadm Hgm Hnone.
  assert (reports_gm_auth (Worker.fetch now probe env)
          = Some (VBool (Worker.configured (Worker.GM_SECRET env)))) as ->.
  { unfold Worker.fetch. rewrite decide_False by done.
    destruct Hpath as [-> | ->]; reflexivity. }
  rewrite (fetch_admission _ _ _ _ Hadm), decide_True by done.
  rewrite Hnone.
  destruct (Worker.GM_SECRET env) as [[|c r]|] eqn:E; cbn.
  all: split; split; try done; try (by eexists); by intros [? ?].
Qed.

Lemma health_reports_enforcement_witness :
  (reports_gm_auth (Worker.fetch [] health_request secret_env) = Some (VBool true)
   <-> Worker.fetch [] (gm_request false) secret_env
       = Worker.Respond
           (Worker.unauthorized (Worker.getCorsHeaders (gm_request false) secret_env)))
  /\ (reports_gm_auth (Worker.fetch [] health_request secret_env) = Some (VBool false)
      <-> exists doRequest,
            Worker.fetch [] (gm_request false) secret_env
            = Worker.StubFetch (lit "room-1") doRequest).
Proof.
  apply (health_reports_enforcement [] health_request (gm_request false)
           secret_env (lit "room-1")).
  - by vm_compute.
  - by left.
  - split; [by vm_compute | vm_compute; reflexivity].
  - vm_compute; reflexivity.
  - vm_compute; reflexivity.
Defined.

(** ** Colours *)

Lemma Math_round_integer (z : Z) : Colors.Math_round (inject_Z z) = z.
Proof.
  unfold Colors.Math_round, Qfloor, Qplus, inject_Z. cbn [Qnum Qden].
  change (Z.pos (1 * 2)) with 2.
  symmetry. apply (Z.div_unique _ _ z 1); lia.
Qed.

Lemma channel_rounds (q : Q) :
  Colors.channel (Fin q) = Colors.channel (num_of_Z (Colors.Math_round q)).
Proof.
  unfold Colors.channel, Colors.round_toString16, num_of_Z.
  by rewrite Math_round_integer.
Qed.

Lemma channel_round_trips_all (z : Z) :
  0 <= z <= 255 -> channel_round_trips z = true.
Proof.
  intros Hz.
  assert (forallb channel_round_trips (seqZ 0 256) = true) as Hall
    by (vm_compute; reflexivity).
  rewrite forallb_forall in Hall. apply Hall.
  apply list_elem_of_In, elem_of_seqZ. lia.
Qed.

Lemma hexToRgb_channels c1 c2 c3 c4 c5 c6 :
  forallb Colors.is_hex_digit [c1; c2; c3; c4; c5; c6] = true ->
  Colors.hexToRgb (35%N :: [c1; c2] ++ [c3; c4] ++ [c5; c6])
  = Colors.mkRGB (Colors.parseInt16 [c1; c2]) (Colors.parseInt16 [c3; c4])
                 (Colors.parseInt16 [c5; c6]).
Proof.
  intros Hhex. unfold Colors.hexToRgb, Colors.hex_groups.
  cbn [app]. by rewrite Hhex.
Qed.

(** Writing a colour and reading it back gives the rounded colour: for
    finite channels that round to integers between 0 and 255,
    [hexToRgb(rgbToHex(r, g, b))] is the colour of the three rounded
    channels. *)
Theorem hexToRgb_rgbToHex (qr qg qb : Q) :
  0 <= Colors.Math_round qr <= 255 ->
  0 <= Colors.Math_round qg <= 255 ->
  0 <= Colors.Math_round qb <= 255 ->
  Colors.hexToRgb (Colors.rgbToHex (Fin qr) (Fin qg) (Fin qb))
  = Colors.mkRGB (Colors.Math_round qr) (Colors.Math_round qg)
                 (Colors.Math_round qb).
Proof.
  intros Hr Hg Hb. unfold Colors.rgbToHex. rewrite !channel_rounds.
  pose proof (channel_round_trips_all _ Hr) as Cr.
  pose proof (channel_round_trips_all _ Hg) as Cg.
  pose proof (channel_round_trips_all _ Hb) as Cb.
  unfold channel_round_trips in Cr, Cg, Cb.
  destruct (Colors.channel (num_of_Z (Colors.Math_round qr)))
    as [|r1 [|r2 [|? ?]]]; try done.
  destruct (Colors.channel (num_of_Z (Colors.Math_round qg)))
    as [|g1 [|g2 [|? ?]]]; try done.
  destruct (Colors.channel (num_of_Z (Colors.Math_round qb)))
    as [|b1 [|b2 [|? ?]]]; try done.
  apply andb_prop in Cr as [[Hr1 Hr2]%andb_prop Vr%Z.eqb_eq].
  apply andb_prop in Cg as [[Hg1 Hg2]%andb_prop Vg%Z.eqb_eq].
  apply andb_prop in Cb as [[Hb1 Hb2]%andb_prop Vb%Z.eqb_eq].
  rewrite hexToRgb_channels.
  - by rewrite Vr, Vg, Vb.
  - cbn [forallb]. by rewrite Hr1, Hr2, Hg1, Hg2, Hb1, Hb2.
Qed.

Lemma hexToRgb_rgbToHex_witness :
  Colors.hexToRgb (Colors.rgbToHex (Fin (1999 # 10)) (Fin (5 # 2)) (Fin 255))
  = Colors.mkRGB 200 3 255.
Proof.
  apply (hexToRgb_rgbToHex (1999 # 10) (5 # 2) 255); by vm_compute.
Defined.

Lemma hex_digit_value_bounds c : 0 <= Colors.hex_digit_value c <= 15.
Proof. unfold Colors.hex_digit_value. cbv zeta. repeat case_match; lia. Qed.

Lemma parseInt16_pair_bounds c1 c2 : 0 <= Colors.parseInt16 [c1; c2] <= 255.
Proof.
  unfold Colors.parseInt16. cbn [fold_left].
  pose proof (hex_digit_value_bounds c1). pose proof (hex_digit_value_bounds c2).
  lia.
Qed.

(** Whatever string it is given, [hexToRgb] returns three integers between
    0 and 255; a string that is not six hexadecimal digits after an optional
    [#] gives the default cyan (30, 203, 225). *)
Theorem hexToRgb_in_range (hex : jsstring) :
  let c := Colors.hexToRgb hex in
  0 <= Colors.r c <= 255 /\ 0 <= Colors.g c <= 255 /\ 0 <= Colors.b c <= 255
  /\ (Colors.hex_groups hex = None -> c = Colors.mkRGB 30 203 225).
Proof.
  unfold Colors.hexToRgb.
  destruct (Colors.hex_groups hex) as [[[g1 g2] g3]|] eqn:E;
    cbn [Colors.r Colors.g Colors.b].
  2: { split_and!; done || lia. }
  assert (exists c1 c2 c3 c4 c5 c6,
             g1 = [c1; c2] /\ g2 = [c3; c4] /\ g3 = [c5; c6])
    as (c1 & c2 & c3 & c4 & c5 & c6 & -> & -> & ->).
  { unfold Colors.hex_groups in E.
    repeat case_match; try done; simplify_eq; by repeat eexists. }
  split_and!; try apply parseInt16_pair_bounds. done.
Qed.

Lemma is_hex_digit_elem (c : jschar) :
  Colors.is_hex_digit c = true -> c ∈ hex_digit_chars.
Proof.
  intros H.
  assert ((c = 48 \/ c = 49 \/ c = 50 \/ c = 51 \/ c = 52 \/ c = 53 \/ c = 54 \/ c = 55 \/ c = 56 \/ c = 57 \/ c = 97 \/ c = 98 \/ c = 99 \/ c = 100 \/ c = 101 \/ c = 102 \/ c = 65 \/ c = 66 \/ c = 67 \/ c = 68 \/ c = 69 \/ c = 70)%N) as Hc
    by (unfold Colors.is_hex_digit in H; cbv zeta in H; lia).
  unfold hex_digit_chars. unfold lit. cbn.
  rewrite !elem_of_cons. tauto.
Qed.

Lemma digits_round_trip_all (c1 c2 : jschar) :
  Colors.is_hex_digit c1 = true -> Colors.is_hex_digit c2 = true ->
  Colors.channel (num_of_Z (Colors.parseInt16 [c1; c2]))
  = [lower_hex c1; lower_hex c2].
Proof.
  intros H1%is_hex_digit_elem H2%is_hex_digit_elem.
  assert (forallb digits_round_trip (list_prod hex_digit_chars hex_digit_chars)
          = true) as Hall by (vm_compute; reflexivity).
  rewrite forallb_forall in Hall.
  assert (digits_round_trip (c1, c2) = true) as Hrt
    by (apply Hall, in_prod; by apply list_elem_of_In).
  unfold digits_round_trip in Hrt. by apply bool_decide_eq_true in Hrt.
Qed.

Lemma strip_hash_other (c : jschar) (s : jsstring) :
  c ≠ 35%N ->
  match c :: s with 35%N :: rest => rest | _ => c :: s end = c :: s.
Proof.
  intros Hc. destruct c as [|p]; [done|].
  do 7 (try (destruct p as [p|p|]; try done)).
Qed.

(** Reading a colour and writing it back gives the same colour code in its
    canonical form: for a string of six hexadecimal digits, with or without
    the leading [#], [rgbToHex] of the channels [hexToRgb] returns is [#]
    followed by the six digits in lower case. *)
Theorem rgbToHex_hexToRgb (hex : jsstring) (c1 c2 c3 c4 c5 c6 : jschar) :
  (hex = [c1; c2; c3; c4; c5; c6] \/ hex = 35%N :: [c1; c2; c3; c4; c5; c6]) ->
  forallb Colors.is_hex_digit [c1; c2; c3; c4; c5; c6] = true ->
  Colors.rgbToHex (num_of_Z (Colors.r (Colors.hexToRgb hex)))
                  (num_of_Z (Colors.g (Colors.hexToRgb hex)))
                  (num_of_Z (Colors.b (Colors.hexToRgb hex)))
  = 35%N :: map lower_hex [c1; c2; c3; c4; c5; c6].
Proof.
  intros Hhex Hdigits.
  assert (Colors.hexToRgb hex
          = Colors.mkRGB (Colors.parseInt16 [c1; c2]) (Colors.parseInt16 [c3; c4])
                         (Colors.parseInt16 [c5; c6])) as ->.
  { destruct Hhex as [-> | ->].
    - unfold Colors.hexToRgb, Colors.hex_groups. cbv zeta.
      rewrite strip_hash_other by (intros ->; by cbn in Hdigits).
      by rewrite Hdigits.
    - by apply hexToRgb_channels. }
  cbn [Colors.r Colors.g Colors.b]. unfold Colors.rgbToHex.
  cbn [forallb] in Hdigits. repeat (apply andb_prop in Hdigits as [? Hdigits]).
  by rewrite !digits_round_trip_all.
Qed.

Lemma rgbToHex_hexToRgb_witness :
  Colors.rgbToHex (num_of_Z (Colors.r (Colors.hexToRgb (lit "1ECBE1"))))
                  (num_of_Z (Colors.g (Colors.hexToRgb (lit "1ECBE1"))))
                  (num_of_Z (Colors.b (Colors.hexToRgb (lit "1ECBE1"))))
  = lit "#1ecbe1".
Proof.
  apply (rgbToHex_hexToRgb (lit "1ECBE1") 49 69 67 66 69 49)%N.
  - by left.
  - reflexivity.
Defined.

(** ** Instances *)

Lemma sanitizeId_fixed_points_witness :
  sanitizeId (VStr (lit "node-1")) = Some (lit "node-1").
Proof.
  apply (proj2 (sanitizeId_fixed_points (lit "node-1"))).
  split; [|cbn; lia]. apply id_regex_test_spec. reflexivity.
Defined.

Lemma validatePosition_spec_witness :
  (validatePosition (VRef 3%nat) (computer_heap 0)).1
  = Some (mkPosition (num_of_Z 100) (num_of_Z 200)).
Proof.
  apply (proj2 (validatePosition_spec (VRef 3%nat) (computer_heap 0)
                  (mkPosition (num_of_Z 100) (num_of_Z 200)))).
  exists 3%nat, (object [ ("x", VNum (num_of_Z 100)); ("y", VNum (num_of_Z 200)) ]).
  split_and!; [reflexivity | vm_compute; reflexivity | vm_compute; reflexivity
              | vm_compute; reflexivity |].
  split; eexists; (split; [reflexivity|]); by vm_compute.
Defined.

Lemma validateComputer_accepts_iff_witness :
  exists aps, otherwise_valid (computer_heap 2) (VRef 0%nat) aps
              /\ Z.of_nat (length aps) <= LIMITS.MAX_ACCESS_POINTS.
Proof.
  apply (proj1 (validateComputer_accepts_iff (VRef 0%nat) (computer_heap 2))).
  eexists. vm_compute. reflexivity.
Defined.

Lemma validateNodeStatePayload_spec_witness :
  (validateNodeStatePayload (VRef 0%nat) node_state_heap).1
  = Valid (lit "ap-1", breached).
Proof.
  apply (proj2 (validateNodeStatePayload_spec (VRef 0%nat) node_state_heap
                  (lit "ap-1") breached)).
  exists 0%nat, (object [ ("nodeId", VStr (lit " ap-1 "));
                          ("state", VStr (lit "breached")) ]).
  split_and!; [reflexivity | vm_compute; reflexivity | vm_compute; reflexivity
              | vm_compute; reflexivity ].
Defined.

Lemma wsMatch_spec_witness :
  Worker.wsMatch (lit "/ws/my_room/state") = Some (lit "my").
Proof.
  apply (proj2 (wsMatch_spec (lit "/ws/my_room/state") (lit "my"))).
  exists (lit "_room/state"). split_and!; [reflexivity | done | |].
  - apply Forall_forall. intros c Hc. elem_cases Hc; by subst c.
  - by intros c [= <-].
Defined.

Lemma fetch_forwards_iff_witness :
  exists doRequest,
    Worker.fetch [] (gm_request true) secret_env
    = Worker.StubFetch (lit "room-1") doRequest.
Proof.
  apply (proj2 (fetch_forwards_iff [] (gm_request true) secret_env (lit "room-1"))).
  split; [split; [by vm_compute | vm_compute; reflexivity]|].
  intros _ _. vm_compute; reflexivity.
Defined.

Lemma setAmbientIntensity_clamps_witness :
  Store.ambientIntensity
    (Store.setAmbientIntensity true (Fin 3) (store_example None)).1
  = num_of_Z 1
  /\ Store.ambientIntensity
       (Store.setAmbientIntensity true (Fin (-2)) (store_example None)).1
     = num_of_Z 0
  /\ Store.ambientIntensity
       (Store.setAmbientIntensity true NegInf (store_example None)).1
     = num_of_Z 0
  /\ in_range 0 1
       (Store.ambientIntensity
          (Store.setAmbientIntensity true PosInf (store_example None)).1).
Proof.
  split_and!.
  - by apply (setAmbientIntensity_clamps true (Fin 3) (store_example None)).
  - by apply (setAmbientIntensity_clamps true (Fin (-2)) (store_example None)).
  - by apply (setAmbientIntensity_clamps true NegInf (store_example None)).
  - by apply (setAmbientIntensity_clamps true PosInf (store_example None)).
Defined.

Lemma hexToRgb_in_range_witness :
  Colors.hexToRgb (lit "#12345") = Colors.mkRGB 30 203 225.
Proof.
  apply (hexToRgb_in_range (lit "#12345")). reflexivity.
Defined.

(** Every response the worker produces itself carries the CORS headers of
    the request, the 401 and the 404 included; the only exception is the
    redirect of the root path, which has no body and one header, the
    [Location] made of the origin of the request and the path [/]. *)
Theorem own_responses_carry_cors (now : jsstring) (request : Worker.Request)
    (env : Worker.Env) (response : Worker.Response) :
  Worker.fetch now request env = Worker.Respond response ->
  (root_path_request request
   /\ response
      = Worker.mkResponse 302 Worker.NoBody
          [ (lit "Location", Worker.origin request ++ lit "/") ])
  \/ (Worker.status response ≠ 302
      /\ Worker.getCorsHeaders request env ⊆ Worker.resp_headers response).
Proof.
  unfold Worker.fetch, Worker.unauthorized, Worker.redirect, root_path_request.
  destruct (decide (Worker.method request = lit "OPTIONS")) as [Hm|Hm].
  { intros [= <-]. right. split; [done|]. set_solver. }
  destruct (Worker.wsMatch (Worker.pathname request)).
  { repeat case_match; try done; intros [= <-]; right; (split; [done|]);
      set_solver. }
  destruct (bool_decide (Worker.pathname request = lit "/health")
            || bool_decide (Worker.pathname request = lit "/api/health")).
  { intros [= <-]. right. split; [done|]. set_solver. }
  destruct (bool_decide (Worker.pathname request = lit "/")
            || bool_decide (Worker.pathname request = [])) eqn:Hroot.
  - intros [= <-]. left. split; [|done]. split; [done|].
    apply orb_true_iff in Hroot as [H|H]; apply bool_decide_eq_true in H; tauto.
  - intros [= <-]. right. split; [done|]. set_solver.
Qed.

Lemma own_responses_carry_cors_witness :
  Worker.getCorsHeaders (gm_request false) secret_env
  ⊆ Worker.resp_headers
      (Worker.unauthorized (Worker.getCorsHeaders (gm_request false) secret_env))
  /\ Worker.fetch [] root_request cors_env
     = Worker.Respond
         (Worker.mkResponse 302 Worker.NoBody
            [ (lit "Location", lit "https://sync.example/") ]).
Proof.
  split.
  - destruct (own_responses_carry_cors [] (gm_request false) secret_env
                (Worker.unauthorized
                   (Worker.getCorsHeaders (gm_request false) secret_env)))
      as [[_ E] | [_ H]]; [vm_compute; reflexivity | | exact H].
    exfalso. by vm_compute in E.
  - destruct (own_responses_carry_cors [] root_request cors_env
                (Worker.redirect (Worker.origin root_request) 302))
      as [[_ E] | [H _]]; [vm_compute; reflexivity | | by destruct H].
    vm_compute. reflexivity.
Defined.
